(** * VisionAI backend routes: session authentication and camera registration

    A shallow embedding of
      - [website/database/db.ts]                    (the [db] query shim),
      - the session route (POST and DELETE of /api/auth/session),
      - [website/app/api/configs/camera/route.ts]   (POST /api/configs/camera),
    together with a model of the library calls the handlers make (zod 4
    schemas, jsonwebtoken's [sign], the cookie serializer, [NextResponse]).
    What the libraries compute from data the handlers do not control (the
    database, bcrypt, the signature of a token, verification, the e-mail
    and URL recognisers) is a parameter of the development, see [Env]. *)

From Stdlib Require Import ZArith QArith_base Qround String Ascii List.
From Stdlib Require Import DecimalString.
From stdpp Require Import base option list gmap strings.

Local Open Scope string_scope.
Local Open Scope list_scope.

(** ** JavaScript values *)

(** The dynamically typed values the handlers pass around: a parsed JSON
    body, a database row, a query parameter, a decoded token.  Numbers are
    the rationals a JSON literal denotes; objects keep their properties in
    insertion order.  A string is the sequence of the UTF-8 bytes of the
    JavaScript string. *)
#[warnings="-register-all"]
Inductive value : Type :=
| VUndefined
| VNull
| VBool (b : bool)
| VNum (q : Q)
| VStr (s : string)
| VArr (items : list value)
| VObj (fields : list (string * value)).

Fixpoint assoc (k : string) (fields : list (string * value)) : option value :=
  match fields with
  | [] => None
  | (k', v) :: rest => if String.eqb k k' then Some v else assoc k rest
  end.

(** [v.k] on a value that is neither [null] nor [undefined]: a missing
    property reads as [undefined]. *)
Definition prop (v : value) (k : string) : value :=
  match v with
  | VObj fields => default VUndefined (assoc k fields)
  | _ => VUndefined
  end.

(** [k in v] *)
Definition has_key (v : value) (k : string) : bool :=
  match v with
  | VObj fields => bool_decide (is_Some (assoc k fields))
  | _ => false
  end.

(** JavaScript truthiness, as used by [!x] and [x || y]. *)
Definition truthy (v : value) : bool :=
  match v with
  | VUndefined | VNull => false
  | VBool b => b
  | VNum q => negb (Z.eqb (Qnum q) 0)
  | VStr s => negb (String.eqb s "")
  | VArr _ | VObj _ => true
  end.

(** [a || b] *)
Definition js_or (a b : value) : value := if truthy a then a else b.

Definition num (z : Z) : value := VNum (inject_Z z).

(** The UTF-16 code units a byte of UTF-8 accounts for: one for the first
    byte of a sequence of one to three bytes, two for the first byte of a
    sequence of four, none for a continuation byte. *)
Definition code_units (c : ascii) : nat :=
  let n := N_of_ascii c in
  if (n <? 128)%N then 1
  else if (n <? 192)%N then 0
  else if (n <? 240)%N then 1
  else 2.

(** [s.length] *)
Fixpoint js_length (s : string) : nat :=
  match s with
  | EmptyString => 0
  | String c rest => code_units c + js_length rest
  end.

(** ** The environment *)

(** An issue of a zod parse.  [continues] is zod's internal mark of an
    issue after which later checks still run. *)
Record issue := Issue {
  code : string;
  issue_path : list string;
  message : string;
  continues : bool;
}.

(** Thrown values.  The handlers distinguish [ZodError] from everything
    else, see the [catch] blocks. *)
Inductive exn :=
| ZodError (issues : list issue)
| Error (what : string).

(** A result of [Pool.query]: its rows are objects keyed by column. *)
Record QueryResult := { rows : list (list (string * value)) }.

Record SignOptions := { expiresIn : string }.

(** What the handlers take from their surroundings.  [DB] is the state of
    the database behind the connection pool; [pg_query] is what
    [Pool.query] answers in a state, and the state it leaves. *)
Record Env := {
  DB : Type;
  pg_query : string -> list value -> DB -> (string + QueryResult) * DB;
  (* bcrypt.compare(data, encrypted): [None] when the promise rejects *)
  bcrypt_compare : value -> value -> option bool;
  (* jsonwebtoken: the token [sign] makes of a payload with a secret
     that has a value; [verify(token, secret)], [None] when it throws and
     a decoded payload (never [null] or [undefined]) otherwise *)
  jwt_sign : value -> string -> SignOptions -> string;
  jwt_verify : value -> option string -> option value;
  (* process.env *)
  JWT_ACCESS_SECRET : option string;
  JWT_REFRESH_SECRET : option string;
  NODE_ENV : option string;
  (* zod: the e-mail pattern; the url check, which gives [None] for a
     string that is not a URL and otherwise the string it leaves in the
     result; the wording of an issue without a message of its own, from
     its code, what was expected, a bound and the input; the message of
     a ZodError *)
  is_email : string -> bool;
  zod_url : string -> option string;
  zod_url_empty : zod_url "" = None;
  zod_default_message : string -> string -> option Z -> value -> string;
  ZodError_message : list issue -> string;
}.

(** ** zod *)

Inductive safe_parse :=
| Success (data : value)
| Failure (issues : list issue).

Definition zod_schema := value -> safe_parse.

(** A check sees the value parsed so far and may replace it and add
    issues.  A check with a [when] runs where that holds; one without
    runs unless an earlier issue aborted the parse. *)
Record check := Check {
  when : option (value -> bool);
  apply_check : value -> value * list issue;
}.

Definition aborted (iss : list issue) : bool :=
  existsb (fun i => negb (continues i)) iss.

Fixpoint run_checks (cs : list check) (v : value) (iss : list issue)
  : value * list issue :=
  match cs with
  | [] => (v, iss)
  | c :: rest =>
      let should_run :=
        match when c with
        | Some w => w v
        | None => negb (aborted iss)
        end in
      if should_run then
        let '(v', new) := apply_check c v in
        run_checks rest v' (iss ++ new)
      else run_checks rest v iss
  end.

(** A type with the checks chained on it: the type is tested, then the
    checks run in the order they were added. *)
Definition with_checks (type_issues : value -> list issue) (cs : list check)
  : zod_schema := fun v =>
  match run_checks cs v (type_issues v) with
  | (v', []) => Success v'
  | (_, iss) => Failure iss
  end.

Section Zod.
Variable E : Env.

(** An issue with the caller's message when there is one, and the
    library's wording otherwise. *)
Definition issue_of (c what : string) (bound : option Z) (input : value)
    (msg : option string) (cont : bool) : issue :=
  Issue c [] (default (zod_default_message E c what bound input) msg) cont.

Definition string_issues (v : value) : list issue :=
  match v with
  | VStr _ => []
  | _ => [issue_of "invalid_type" "string" None v None false]
  end.

(** [z.string()] with the checks [cs] *)
Definition z_string (cs : list check) : zod_schema :=
  with_checks string_issues cs.

Definition number_issues (v : value) : list issue :=
  match v with
  | VNum _ => []
  | _ => [issue_of "invalid_type" "number" None v None false]
  end.

(** [z.number()] with the checks [cs] *)
Definition z_number (cs : list check) : zod_schema :=
  with_checks number_issues cs.

(** [.length] of a value that has one *)
Definition length_of (v : value) : option nat :=
  match v with
  | VStr s => Some (js_length s)
  | VArr items => Some (length items)
  | _ => None
  end.

(** [.min(n, msg)]: runs on whatever has a length *)
Definition z_min (n : nat) (msg : option string) : check :=
  Check (Some (fun v => bool_decide (is_Some (length_of v))))
    (fun v =>
       match length_of v with
       | Some l =>
           if (n <=? l)%nat then (v, [])
           else (v, [issue_of "too_small"
                       (match v with VStr _ => "string" | _ => "array" end)
                       (Some (Z.of_nat n)) v msg true])
       | None => (v, [])
       end).

Definition email_check : check :=
  Check None
    (fun v =>
       match v with
       | VStr s =>
           if is_email E s then (v, [])
           else (v, [issue_of "invalid_format" "email" None v None true])
       | _ => (v, [])
       end).

(** [z.email()] with the checks [cs] *)
Definition z_email (cs : list check) : zod_schema :=
  with_checks string_issues (email_check :: cs).

(** [.url(msg)]: the string the check accepts is replaced by the one it
    makes of it. *)
Definition z_url (msg : option string) : check :=
  Check None
    (fun v =>
       match v with
       | VStr s =>
           match zod_url E s with
           | Some out => (VStr out, [])
           | None => (v, [issue_of "invalid_format" "url" None v msg true])
           end
       | _ => (v, [])
       end).

Definition MAX_SAFE_INTEGER : Z := 2 ^ 53 - 1.

(** [.int()]: what is not an integer aborts; an integer outside the safe
    range is an issue after which later checks still run. *)
Definition z_int : check :=
  Check None
    (fun v =>
       match v with
       | VNum q =>
           if negb (Z.eqb (Qnum q mod Zpos (Qden q)) 0)
           then (v, [issue_of "invalid_type" "int" None v None false])
           else
             let n := (Qnum q / Zpos (Qden q))%Z in
             if (MAX_SAFE_INTEGER <? n)%Z
             then (v, [issue_of "too_big" "int" (Some MAX_SAFE_INTEGER) v
                         None true])
             else if (n <? - MAX_SAFE_INTEGER)%Z
             then (v, [issue_of "too_small" "int" (Some (- MAX_SAFE_INTEGER)%Z) v
                         None true])
             else (v, [])
       | _ => (v, [])
       end).

(** [.positive(msg)] *)
Definition z_positive (msg : option string) : check :=
  Check None
    (fun v =>
       match v with
       | VNum q =>
           if (0 <? Qnum q)%Z then (v, [])
           else (v, [issue_of "too_small" "number" (Some 0%Z) v msg true])
       | _ => (v, [])
       end).

(** [.optional()] *)
Definition z_optional (s : zod_schema) : zod_schema := fun v =>
  match v with
  | VUndefined => Success VUndefined
  | _ => s v
  end.

(** [z.literal(lit)] for a string literal *)
Definition z_literal (lit : string) : zod_schema := fun v =>
  match v with
  | VStr str =>
      if String.eqb str lit then Success v
      else Failure [issue_of "invalid_value" lit None v None false]
  | _ => Failure [issue_of "invalid_value" lit None v None false]
  end.

(** [a.or(b)]: the first option that accepts the input; if none does and
    exactly one option was not aborted, the issues of that one; an
    invalid_union issue otherwise. *)
Definition z_or (a b : zod_schema) : zod_schema := fun v =>
  match a v with
  | Success d => Success d
  | Failure ia =>
      match b v with
      | Success d => Success d
      | Failure ib =>
          match aborted ia, aborted ib with
          | false, true => Failure ia
          | true, false => Failure ib
          | _, _ => Failure [issue_of "invalid_union" "" None v None false]
          end
      end
  end.

(** The issues of the property [k]: its key is put in front of the path. *)
Definition prefix_issues (k : string) (iss : list issue) : list issue :=
  map (fun i => Issue (code i) (k :: issue_path i) (message i) (continues i)) iss.

(** [z.object(shape)]: every key of the shape is parsed (an absent key
    as [undefined]) and the issues of all keys are reported together; the
    output has the keys of the shape, without a key that is absent from
    the input and parsed to [undefined], and without the keys outside the
    shape. *)
Fixpoint object_fields (shape : list (string * zod_schema)) (v : value)
  : list issue * list (string * value) :=
  match shape with
  | [] => ([], [])
  | (k, s) :: rest =>
      let '(iss, out) := object_fields rest v in
      match s (prop v k) with
      | Success VUndefined =>
          (iss, if has_key v k then (k, VUndefined) :: out else out)
      | Success d => (iss, (k, d) :: out)
      | Failure i => (prefix_issues k i ++ iss, out)
      end
  end.

Definition z_object (shape : list (string * zod_schema)) : zod_schema := fun v =>
  match v with
  | VObj _ =>
      match object_fields shape v with
      | ([], out) => Success (VObj out)
      | (iss, _) => Failure iss
      end
  | _ => Failure [issue_of "invalid_type" "object" None v None false]
  end.

End Zod.

(** ** Time spans of token lifetimes *)

Definition is_digit (c : ascii) : bool :=
  let n := N_of_ascii c in ((48 <=? n) && (n <=? 57))%N.

(** The decimal digits a string starts with, and what follows them. *)
Fixpoint take_digits (s : string) : string * string :=
  match s with
  | EmptyString => (EmptyString, EmptyString)
  | String c rest =>
      if is_digit c then
        let '(d, after) := take_digits rest in (String c d, after)
      else (EmptyString, s)
  end.

Fixpoint digits_value (s : string) (acc : Z) : Z :=
  match s with
  | EmptyString => acc
  | String c rest =>
      digits_value rest (10 * acc + (Z.of_N (N_of_ascii c) - 48))%Z
  end.

(** The number with the integer digits [int] and the fraction digits
    [frac]. *)
Definition decimal (int frac : string) : Q :=
  Qmake (digits_value (int ++ frac) 0)
        (Z.to_pos (10 ^ Z.of_nat (String.length frac))).

Fixpoint drop_spaces (s : string) : string :=
  match s with
  | String " " rest => drop_spaces rest
  | _ => s
  end.

Definition lower (c : ascii) : ascii :=
  let n := N_of_ascii c in
  if ((65 <=? n) && (n <=? 90))%N then ascii_of_N (n + 32) else c.

Fixpoint lowercase (s : string) : string :=
  match s with
  | EmptyString => EmptyString
  | String c rest => String (lower c) (lowercase rest)
  end.

(** The milliseconds of one unit, by any of its names; no name stands
    for milliseconds. *)
Definition unit_ms (u : string) : option Z :=
  let among := existsb (String.eqb u) in
  if among ["years"; "year"; "yrs"; "yr"; "y"] then Some 31557600000%Z
  else if among ["weeks"; "week"; "w"] then Some 604800000%Z
  else if among ["days"; "day"; "d"] then Some 86400000%Z
  else if among ["hours"; "hour"; "hrs"; "hr"; "h"] then Some 3600000%Z
  else if among ["minutes"; "minute"; "mins"; "min"; "m"] then Some 60000%Z
  else if among ["seconds"; "second"; "secs"; "sec"; "s"] then Some 1000%Z
  else if among ["milliseconds"; "millisecond"; "msecs"; "msec"; "ms"; ""]
       then Some 1%Z
  else None.

(** [ms(str)] of the ms package, in milliseconds: an optional minus sign,
    a decimal number, spaces, and a unit in either case; nothing for a
    string of more than 100 characters or of another form.  jsonwebtoken
    reads a string [expiresIn] through it. *)
Definition ms (str : string) : option Q :=
  if (100 <? js_length str)%nat then None
  else
    let '(negative, unsigned) :=
      match str with
      | String "-" rest => (true, rest)
      | _ => (false, str)
      end in
    let '(int, after_int) := take_digits unsigned in
    let number :=
      match after_int with
      | String "." rest =>
          let '(frac, after_frac) := take_digits rest in
          if String.eqb frac "" then None else Some (int, frac, after_frac)
      | _ => if String.eqb int "" then None else Some (int, "", after_int)
      end in
    match number with
    | Some (int, frac, rest) =>
        match unit_ms (lowercase (drop_spaces rest)) with
        | Some m =>
            let n := decimal int frac in
            Some (Qmult (if negative then Qopp n else n) (inject_Z m))
        | None => None
        end
    | None => None
    end.

(** The lifetime, in seconds, of a token signed with these options: its
    [exp] minus its [iat]. *)
Definition lifetime (o : SignOptions) : option Z :=
  (fun t => Qfloor (Qdiv t (inject_Z 1000))) <$> ms (expiresIn o).

(** ** Effects: the database, the console, exceptions *)

Section Effects.
Variable E : Env.

(** The world a handler runs in: the database, the queries sent to the
    pool so far (oldest first), and what was written to the console. *)
Record world := {
  db : DB E;
  sql_log : list (string * list value);
  console : list (string * exn);
}.

(** A computation either returns or throws, and leaves a world. *)
Definition M (A : Type) : Type := world -> (exn + A) * world.

#[global] Instance M_ret : MRet M := fun A a w => (inr a, w).

#[global] Instance M_bind : MBind M := fun A B f m w =>
  match m w with
  | (inr a, w') => f a w'
  | (inl e, w') => (inl e, w')
  end.

Definition throw {A} (e : exn) : M A := fun w => (inl e, w).

(** [try { body } catch (error) { handler }] *)
Definition try_catch {A} (body : M A) (handler : exn -> M A) : M A := fun w =>
  match body w with
  | (inr a, w') => (inr a, w')
  | (inl e, w') => handler e w'
  end.

Definition console_error (label : string) (e : exn) : M unit := fun w =>
  (inr tt, {| db := db w; sql_log := sql_log w;
              console := console w ++ [(label, e)] |}).

(** [pool.query(text, params)]: the query reaches the database, which
    answers or fails. *)
Definition pool_query (text : string) (params : list value) : M QueryResult :=
  fun w =>
    let '(r, d) := pg_query E text params (db w) in
    (match r with inl e => inl (Error e) | inr res => inr res end,
     {| db := d; sql_log := sql_log w ++ [(text, params)];
        console := console w |}).

(** [website/database/db.ts]:
    [query: (text, params) => pool.query(text, params)] *)
Definition db_query (text : string) (params : list value) : M QueryResult :=
  pool_query text params.

(** [schema.parse(v)] throws a [ZodError] carrying the issues. *)
Definition parse (s : zod_schema) (v : value) : M value :=
  match s v with
  | Success d => mret d
  | Failure iss => throw (ZodError iss)
  end.

(** [await bcrypt.compare(data, encrypted)] *)
Definition bcrypt_compare_M (data encrypted : value) : M bool :=
  match bcrypt_compare E data encrypted with
  | Some b => mret b
  | None => throw (Error "bcrypt")
  end.

(** [verify(token, secret)] *)
Definition verify (token : value) (secret : option string) : M value :=
  match jwt_verify E token secret with
  | Some decoded => mret decoded
  | None => throw (Error "JsonWebTokenError")
  end.

(** [sign(payload, secret, options)]: throws for a secret that is unset
    or empty and for an [expiresIn] that is no time span. *)
Definition sign (payload : value) (secret : option string)
    (options : SignOptions) : M string :=
  match secret with
  | Some s =>
      if String.eqb s "" then
        throw (Error "secretOrPrivateKey must have a value")
      else
        match lifetime options with
        | Some _ => mret (jwt_sign E payload s options)
        | None => throw (Error "expiresIn is not a time span")
        end
  | None => throw (Error "secretOrPrivateKey must have a value")
  end.

End Effects.

Arguments db {E} _.
Arguments sql_log {E} _.
Arguments console {E} _.
Arguments throw {E A} _.
Arguments try_catch {E A} _ _.

(** ** Requests and responses *)

Record NextRequest := {
  cookies : gmap string string;
  (* what [await req.json()] gives: [None] when the body is not JSON *)
  json : option value;
}.

(** A response body is the text of a JSON value. *)
Inductive text := JSON_stringify (v : value).

Record NextResponse := {
  status : Z;
  headers : list (string * string);
  body_text : text;
}.

(** [req.cookies.get(name)?.value] *)
Definition cookie_value (req : NextRequest) (name : string) : value :=
  from_option VStr VUndefined (cookies req !! name).

(** [await req.json()] *)
Definition req_json {E} (req : NextRequest) : M E value :=
  match json req with
  | Some v => mret v
  | None => throw (Error "SyntaxError")
  end.

(** [NextResponse.json(v, { status })]; a value with no JSON text
    ([undefined]) is a [TypeError]. *)
Definition NextResponse_json {E} (v : value) (st : Z) : M E NextResponse :=
  match v with
  | VUndefined => throw (Error "TypeError")
  | _ => mret {| status := st;
                 headers := [("content-type", "application/json")];
                 body_text := JSON_stringify v |}
  end.

(** [new NextResponse(body, { headers })]: the status defaults to 200 and
    a text body is labelled as plain text. *)
Definition new_NextResponse (b : text) (hs : list (string * string))
  : NextResponse :=
  {| status := 200;
     headers := hs ++ [("content-type", "text/plain;charset=UTF-8")];
     body_text := b |}.

(** ** The cookie serializer *)

Inductive SameSite := SameSiteStrict | SameSiteLax | SameSiteNone.

Record SerializeOptions := {
  httpOnly : bool;
  secure : bool;
  sameSite : SameSite;
  maxAge : Z;
  path : string;
}.

Definition hex_digit (n : N) : ascii :=
  ascii_of_N (if (n <? 10)%N then 48 + n else 55 + n).

(** The characters [encodeURIComponent] leaves alone. *)
Definition unreserved (c : ascii) : bool :=
  let n := N_of_ascii c in
  ((65 <=? n) && (n <=? 90) || (97 <=? n) && (n <=? 122)
   || (48 <=? n) && (n <=? 57))%N
  || existsb (Ascii.eqb c)
       ["-"; "_"; "."; "!"; "~"; "*"; "'"; "("; ")"]%char.

(** [encodeURIComponent] on the UTF-8 bytes of a string *)
Fixpoint encodeURIComponent (s : string) : string :=
  match s with
  | EmptyString => EmptyString
  | String c rest =>
      if unreserved c then String c (encodeURIComponent rest)
      else
        let n := N_of_ascii c in
        String "%" (String (hex_digit (n / 16)) (String (hex_digit (n mod 16))
          (encodeURIComponent rest)))
  end.

Definition string_of_Z (n : Z) : string :=
  NilZero.string_of_int (Z.to_int n).

(** [serialize(name, val, options)] of the cookie package, for the
    options the handlers pass. *)
Definition serialize (name val : string) (o : SerializeOptions) : string :=
  name ++ "=" ++ encodeURIComponent val
  ++ "; Max-Age=" ++ string_of_Z (maxAge o)
  ++ "; Path=" ++ path o
  ++ (if httpOnly o then "; HttpOnly" else "")
  ++ (if secure o then "; Secure" else "")
  ++ match sameSite o with
     | SameSiteStrict => "; SameSite=Strict"
     | SameSiteLax => "; SameSite=Lax"
     | SameSiteNone => "; SameSite=None"
     end.

(** ** POST and DELETE /api/auth/session *)

Module session.

Section Route.
Variable E : Env.

Definition schema : zod_schema :=
  z_object E
    [("email", z_email E []);
     ("password", z_string E [z_min E 6 None])].

Definition users_sql : string :=
  "SELECT id, name, email, password FROM users WHERE email = $1".

Definition POST (req : NextRequest) : M E NextResponse :=
  try_catch
    (body ← req_json req;
     parsed ← parse E schema body;
     let email := prop parsed "email" in
     let password := prop parsed "password" in
     user ← db_query E users_sql [email];
     if (length (rows user) =? 0)%nat then
       NextResponse_json (VObj [("message", VStr "Invalid credentials")]) 401
     else
       let row0 := from_option VObj VUndefined (rows user !! 0%nat) in
       passwordMatch ← bcrypt_compare_M E password (prop row0 "password");
       if negb passwordMatch then
         NextResponse_json (VObj [("message", VStr "Invalid credentials")]) 401
       else
         accessToken ←
           sign E (VObj [("userId", prop row0 "id")])
             (JWT_ACCESS_SECRET E) {| expiresIn := "15m" |};
         refreshToken ←
           sign E (VObj [("userId", prop row0 "id")])
             (JWT_REFRESH_SECRET E) {| expiresIn := "7d" |};
         let serialized :=
           [serialize "accessToken" accessToken
              {| httpOnly := true;
                 secure := bool_decide (NODE_ENV E = Some "production");
                 sameSite := SameSiteStrict;
                 maxAge := 15 * 60;
                 path := "/" |};
            serialize "refreshToken" refreshToken
              {| httpOnly := true;
                 secure := bool_decide (NODE_ENV E = Some "production");
                 sameSite := SameSiteStrict;
                 maxAge := 60 * 60 * 24 * 7;
                 path := "/" |}] in
         mret (new_NextResponse
                 (JSON_stringify (VObj [("message", VStr "Login successful")]))
                 [("Set-Cookie", String.concat ", " serialized)]))
    (fun error =>
       match error with
       | ZodError issues =>
           NextResponse_json
             (VObj [("message", VStr (ZodError_message E issues))]) 400
       | _ =>
           NextResponse_json
             (VObj [("message", VStr "Internal server error")]) 500
       end).

Definition DELETE : M E NextResponse :=
  let serialized :=
    [serialize "accessToken" ""
       {| httpOnly := true;
          secure := bool_decide (NODE_ENV E = Some "production");
          sameSite := SameSiteStrict;
          maxAge := -1;
          path := "/" |};
     serialize "refreshToken" ""
       {| httpOnly := true;
          secure := bool_decide (NODE_ENV E = Some "production");
          sameSite := SameSiteStrict;
          maxAge := -1;
          path := "/" |}] in
  mret (new_NextResponse
          (JSON_stringify (VObj [("message", VStr "Logout successful")]))
          [("Set-Cookie", String.concat ", " serialized)]).

End Route.

End session.

(** ** POST /api/configs/camera *)

Module camera.

Section Route.
Variable E : Env.

Definition cameraSchema : zod_schema :=
  z_object E
    [("name", z_string E [z_min E 1 (Some "Camera name is required")]);
     ("streamUrl",
      z_or E (z_optional (z_string E [z_url E (Some "Invalid URL format")]))
             (z_literal E ""));
     ("locationId",
      z_number E
        [z_int E;
         z_positive E (Some "Location ID must be a positive integer")])].

Definition ownership_sql : string :=
  "SELECT l.id FROM locations l JOIN factories f ON l.factory_id = f.id WHERE l.id = $1 AND f.user_id = $2".

Definition insert_sql : string :=
  "INSERT INTO cameras (name, stream_url, location_id) VALUES ($1, $2, $3) RETURNING *".

Definition POST (req : NextRequest) : M E NextResponse :=
  let accessToken := cookie_value req "accessToken" in
  if negb (truthy accessToken) then
    NextResponse_json (VObj [("message", VStr "Unauthorized")]) 401
  else
    try_catch
      (decoded ← verify E accessToken (JWT_ACCESS_SECRET E);
       let userId := prop decoded "userId" in
       body ← req_json req;
       parsed ← parse E cameraSchema body;
       let name := prop parsed "name" in
       let streamUrl := prop parsed "streamUrl" in
       let locationId := prop parsed "locationId" in
       (* Verify that the location belongs to a factory owned by the user *)
       locationCheck ← db_query E ownership_sql [locationId; userId];
       if (length (rows locationCheck) =? 0)%nat then
         NextResponse_json
           (VObj [("message",
                   VStr "Location not found or does not belong to user")])
           404
       else
         res ← db_query E insert_sql [name; js_or streamUrl VNull; locationId];
         NextResponse_json (from_option VObj VUndefined (rows res !! 0%nat)) 201)
      (fun error =>
         match error with
         | ZodError issues =>
             NextResponse_json
               (VObj [("message",
                       VStr (from_option message "" (issues !! 0%nat)))])
               400
         | _ =>
             _ ← console_error E "Error adding camera:" error;
             NextResponse_json (VObj [("message", VStr "Error adding camera")])
               500
         end).

End Route.

End camera.

(** ** Observations on a run *)

(** The value of a response header, if the response has it. *)
Fixpoint header (hs : list (string * string)) (name : string) : option string :=
  match hs with
  | [] => None
  | (k, v) :: rest => if String.eqb k name then Some v else header rest name
  end.

(** The response a run ends with, and the world it leaves. *)
Definition response {E A} (m : M E A) (w : world E) : exn + A := fst (m w).
Definition after {E A} (m : M E A) (w : world E) : world E := snd (m w).

(** The response [NextResponse.json({ message: msg }, { status: st })]
    builds. *)
Definition json_response (st : Z) (msg : string) : NextResponse :=
  {| status := st;
     headers := [("content-type", "application/json")];
     body_text := JSON_stringify (VObj [("message", VStr msg)]) |}.

(** The two ways a login is refused, and the way it is accepted, in terms
    of what the database answers to the users query and of what bcrypt
    says about the first row. *)
Definition users_answer (E : Env) (parsed : value) (w : world E) :=
  pg_query E session.users_sql [prop parsed "email"] (db w).

Definition no_user_row (E : Env) (parsed : value) (w : world E) : Prop :=
  exists d, users_answer E parsed w = (inr {| rows := [] |}, d).

Definition password_mismatch (E : Env) (parsed : value) (w : world E) : Prop :=
  exists r rs d,
    users_answer E parsed w = (inr {| rows := r :: rs |}, d) /\
    bcrypt_compare E (prop parsed "password") (prop (VObj r) "password")
      = Some false.

Definition password_match (E : Env) (parsed : value) (w : world E)
  (r : list (string * value)) : Prop :=
  exists rs d,
    users_answer E parsed w = (inr {| rows := r :: rs |}, d) /\
    bcrypt_compare E (prop parsed "password") (prop (VObj r) "password")
      = Some true.

(** A camera request is authenticated when its accessToken cookie has a
    non-empty value that verifies against the access secret. *)
Definition authenticated (E : Env) (req : NextRequest) (decoded : value) : Prop :=
  exists tok,
    cookies req !! "accessToken" = Some tok /\ tok <> "" /\
    jwt_verify E (VStr tok) (JWT_ACCESS_SECRET E) = Some decoded.

(** What the database answers to the ownership query of a camera request. *)
Definition ownership_answer (E : Env) (parsed decoded : value) (w : world E) :=
  pg_query E camera.ownership_sql
    [prop parsed "locationId"; prop decoded "userId"] (db w).

(** The HTTP-only attributes of a session cookie. *)
Definition session_cookie (o : SerializeOptions) : Prop :=
  httpOnly o = true /\ sameSite o = SameSiteStrict /\ path o = "/".

(** What the login handler signs, for the user row [r], and the options
    both session handlers serialize their cookies with, up to [maxAge]. *)
Definition token_payload (r : list (string * value)) : value :=
  VObj [("userId", prop (VObj r) "id")].

Definition session_options (E : Env) (age : Z) : SerializeOptions :=
  {| httpOnly := true;
     secure := bool_decide (NODE_ENV E = Some "production");
     sameSite := SameSiteStrict;
     maxAge := age;
     path := "/" |}.

(** ** What the schemas accept, field by field *)

(** [z.string().min(n)] *)
Definition string_of_min (n : nat) (v : value) : bool :=
  match v with
  | VStr s => (n <=? js_length s)%nat
  | _ => false
  end.

(** [z.email()] *)
Definition email_ok (E : Env) (v : value) : bool :=
  match v with
  | VStr s => is_email E s
  | _ => false
  end.

(** [z.string().url().optional().or(z.literal(""))] *)
Definition stream_url_ok (E : Env) (v : value) : bool :=
  match v with
  | VUndefined => true
  | VStr s => bool_decide (is_Some (zod_url E s)) || String.eqb s ""
  | _ => false
  end.

(** What the schema makes of a streamUrl it accepts: the url check's
    string for a URL, the value itself otherwise. *)
Definition stream_url_out (E : Env) (v : value) : value :=
  match v with
  | VStr s => VStr (default s (zod_url E s))
  | _ => v
  end.

Definition is_integer (q : Q) : bool :=
  (Qnum q mod Zpos (Qden q) =? 0)%Z.

(** [z.number().int().positive()]: an integer greater than zero and at
    most [MAX_SAFE_INTEGER]. *)
Definition location_ok (v : value) : bool :=
  match v with
  | VNum q =>
      is_integer q && (0 <? Qnum q)%Z
      && (Qnum q / Zpos (Qden q) <=? MAX_SAFE_INTEGER)%Z
  | _ => false
  end.

Definition is_object (v : value) : bool :=
  match v with
  | VObj _ => true
  | _ => false
  end.

Definition login_body_ok (E : Env) (b : value) : bool :=
  is_object b && email_ok E (prop b "email")
  && string_of_min 6 (prop b "password").

Definition camera_body_ok (E : Env) (b : value) : bool :=
  is_object b && string_of_min 1 (prop b "name")
  && stream_url_ok E (prop b "streamUrl")
  && location_ok (prop b "locationId").

(** The output of the camera schema for a body it accepts. *)
Definition camera_parsed (E : Env) (b : value) : value :=
  VObj (("name", prop b "name")
        :: match prop b "streamUrl" with
           | VUndefined =>
               if has_key b "streamUrl" then [("streamUrl", VUndefined)]
               else []
           | u => [("streamUrl", stream_url_out E u)]
           end
        ++ [("locationId", prop b "locationId")]).

(** A secret [sign] can use: set, and not the empty string. *)
Definition usable (secret : option string) : bool :=
  match secret with
  | Some s => negb (String.eqb s "")
  | None => false
  end.

(** The cookie options [o] with [maxAge] -1, as the logout sets them. *)
Definition expired (o : SerializeOptions) : SerializeOptions :=
  {| httpOnly := httpOnly o; secure := secure o; sameSite := sameSite o;
     maxAge := -1; path := path o |}.

(** The ways the users query and the comparison can go wrong. *)
Definition users_query_failed (E : Env) (parsed : value) (w : world E) : Prop :=
  exists e d, users_answer E parsed w = (inl e, d).

Definition compare_rejected (E : Env) (parsed : value) (w : world E) : Prop :=
  exists r rs d,
    users_answer E parsed w = (inr {| rows := r :: rs |}, d) /\
    bcrypt_compare E (prop parsed "password") (prop (VObj r) "password") = None.

(** The run of a login, path by path: the response, and what the path
    was. *)
Inductive login_path (E : Env) (req : NextRequest) (w : world E)
  : NextResponse -> Prop :=
| path_not_json :
    json req = None ->
    login_path E req w (json_response 500 "Internal server error")
| path_refused_body b i iss :
    json req = Some b ->
    session.schema E b = Failure (i :: iss) ->
    login_path E req w (json_response 400 (ZodError_message E (i :: iss)))
| path_query_failed b parsed :
    json req = Some b ->
    session.schema E b = Success parsed ->
    users_query_failed E parsed w ->
    login_path E req w (json_response 500 "Internal server error")
| path_no_row b parsed :
    json req = Some b ->
    session.schema E b = Success parsed ->
    no_user_row E parsed w ->
    login_path E req w (json_response 401 "Invalid credentials")
| path_compare_rejected b parsed :
    json req = Some b ->
    session.schema E b = Success parsed ->
    compare_rejected E parsed w ->
    login_path E req w (json_response 500 "Internal server error")
| path_mismatch b parsed :
    json req = Some b ->
    session.schema E b = Success parsed ->
    password_mismatch E parsed w ->
    login_path E req w (json_response 401 "Invalid credentials")
| path_unsigned b parsed r :
    json req = Some b ->
    session.schema E b = Success parsed ->
    password_match E parsed w r ->
    usable (JWT_ACCESS_SECRET E) = false \/
    usable (JWT_REFRESH_SECRET E) = false ->
    login_path E req w (json_response 500 "Internal server error")
| path_accepted b parsed r s1 s2 :
    json req = Some b ->
    session.schema E b = Success parsed ->
    password_match E parsed w r ->
    JWT_ACCESS_SECRET E = Some s1 -> s1 <> "" ->
    JWT_REFRESH_SECRET E = Some s2 -> s2 <> "" ->
    login_path E req w
      (new_NextResponse
         (JSON_stringify (VObj [("message", VStr "Login successful")]))
         [("Set-Cookie",
           (serialize "accessToken"
              (jwt_sign E (token_payload r) s1 {| expiresIn := "15m" |})
              (session_options E (15 * 60))
            ++ ", " ++
            serialize "refreshToken"
              (jwt_sign E (token_payload r) s2 {| expiresIn := "7d" |})
              (session_options E (60 * 60 * 24 * 7)))%string)]).


(** ** A small deployment

    An in-memory database answering the three queries of the handlers, and
    toy stand-ins for bcrypt, jsonwebtoken and zod's recognisers, to run
    the handlers on. *)

Module demo.

Record tables := {
  users : list (list (string * value));
  factories : list (Z * Z);       (* id, user_id *)
  locations : list (Z * Z);       (* id, factory_id *)
  cameras : list (list (string * value));
}.

Definition as_id (v : value) : option Z :=
  match v with
  | VNum q => Some (Qnum q / Zpos (Qden q))%Z
  | _ => None
  end.

Definition has_email (e : string) (r : list (string * value)) : bool :=
  match assoc "email" r with
  | Some (VStr e') => String.eqb e e'
  | _ => false
  end.

Definition owned_by (t : tables) (u : Z) (l : Z * Z) : bool :=
  existsb (fun f => (fst f =? snd l)%Z && (snd f =? u)%Z) (factories t).

Definition query (text : string) (params : list value) (t : tables)
  : (string + QueryResult) * tables :=
  if String.eqb text session.users_sql then
    match params with
    | [VStr e] => (inr {| rows := List.filter (has_email e) (users t) |}, t)
    | _ => (inl "bind message has the wrong parameters", t)
    end
  else if String.eqb text camera.ownership_sql then
    match params with
    | [l; u] =>
        match as_id l, as_id u with
        | Some l, Some u =>
            (inr {| rows :=
                      map (fun loc => [("id", num (fst loc))])
                        (List.filter
                           (fun loc => (fst loc =? l)%Z && owned_by t u loc)
                           (locations t)) |}, t)
        | _, _ => (inl "invalid input syntax for type integer", t)
        end
    | _ => (inl "bind message has the wrong parameters", t)
    end
  else if String.eqb text camera.insert_sql then
    match params with
    | [n; s; l] =>
        let row := [("id", num (1 + Z.of_nat (length (cameras t))));
                    ("name", n); ("stream_url", s); ("location_id", l)] in
        (inr {| rows := [row] |},
         {| users := users t; factories := factories t;
            locations := locations t; cameras := cameras t ++ [row] |})
    | _ => (inl "bind message has the wrong parameters", t)
    end
  else (inl "syntax error", t).

Definition hash (password : string) : string := "$2b$10$" ++ password.

Definition compare (data encrypted : value) : option bool :=
  match data, encrypted with
  | VStr p, VStr h => Some (String.eqb h (hash p))
  | _, _ => None
  end.

Definition sign (payload : value) (secret : string) (o : SignOptions) : string :=
  "jwt." ++ match prop payload "userId" with
            | VNum q => string_of_Z (Qnum q)
            | _ => ""
            end ++ "." ++ expiresIn o ++ "." ++ secret.

(** The decoded payload has the signed claim and the two times. *)
Definition decoded_for (u : Z) : value :=
  VObj [("userId", num u); ("iat", num 1700000000); ("exp", num 1700000900)].

Definition verify (token : value) (secret : option string) : option value :=
  match token, secret with
  | VStr t, Some s =>
      if String.eqb s "" then None
      else
        decoded_for <$>
          List.find
            (fun u => String.eqb t
                        (sign (VObj [("userId", num u)]) s
                           {| expiresIn := "15m" |}))
            [1; 2]%Z
  | _, _ => None
  end.

Definition contains_at (s : string) : bool :=
  existsb (Ascii.eqb "@") (list_ascii_of_string s).

Fixpoint rev_string (s : string) (acc : string) : string :=
  match s with
  | EmptyString => acc
  | String c rest => rev_string rest (String c acc)
  end.

Definition trim (s : string) : string :=
  rev_string (drop_spaces (rev_string (drop_spaces s) "")) "".

(** The url check: the trimmed string, when it starts like a web
    address. *)
Definition url_check (s : string) : option string :=
  let t := trim s in
  if String.prefix "http://" t || String.prefix "https://" t then Some t
  else None.

(** The deployment with the given values of the two secrets. *)
Definition env_with (access refresh : option string) : Env := {|
  DB := tables;
  pg_query := query;
  bcrypt_compare := compare;
  jwt_sign := sign;
  jwt_verify := verify;
  JWT_ACCESS_SECRET := access;
  JWT_REFRESH_SECRET := refresh;
  NODE_ENV := Some "production";
  is_email := contains_at;
  zod_url := url_check;
  zod_url_empty := eq_refl;
  zod_default_message := fun c what bound input => "Invalid input";
  ZodError_message := fun iss => String.concat "; " (map message iss);
|}.

Definition env : Env :=
  env_with (Some "access-secret") (Some "refresh-secret").

Definition ada : list (string * value) :=
  [("id", num 1); ("name", VStr "Ada"); ("email", VStr "ada@example.com");
   ("password", VStr (hash "correct horse"))].

Definition bob : list (string * value) :=
  [("id", num 2); ("name", VStr "Bob"); ("email", VStr "bob@example.com");
   ("password", VStr (hash "battery staple"))].

(** Ada owns factory 10 with location 100; Bob owns factory 20 with
    location 200. *)
Definition tables0 : tables := {|
  users := [ada; bob];
  factories := [(10, 1); (20, 2)]%Z;
  locations := [(100, 10); (200, 20)]%Z;
  cameras := [];
|}.

Definition world0 : world env := Build_world env tables0 [] [].

Definition login (e p : string) : NextRequest :=
  {| cookies := ∅;
     json := Some (VObj [("email", VStr e); ("password", VStr p)]) |}.

Definition ada_token : string :=
  sign (VObj [("userId", num 1)]) "access-secret" {| expiresIn := "15m" |}.

Definition add_camera (token : option string) (b : value) : NextRequest :=
  {| cookies := from_option (fun t => {[ "accessToken" := t ]}) ∅ token;
     json := Some b |}.

Definition camera_body (name : string) (streamUrl : value) (l : Z) : value :=
  VObj [("name", VStr name); ("streamUrl", streamUrl); ("locationId", num l)].

(** Ada, with a valid token, registers a camera. *)
Definition ada_adds (streamUrl : value) (location : Z) : NextRequest :=
  add_camera (Some ada_token) (camera_body "gate" streamUrl location).

Definition ada_decoded : value := decoded_for 1.

(** The same deployment with the access secret left unset. *)
Definition env_unset : Env := env_with None (Some "refresh-secret").

Definition world_unset : world env_unset := Build_world env_unset tables0 [] [].

End demo.

(** * Properties *)

Arguments prop : simpl never.
Arguments has_key : simpl never.

(** Unfolds a handler down to the calls it makes. *)
Ltac run :=
  unfold response, after, session.POST, session.DELETE, camera.POST,
    try_catch, db_query, pool_query, req_json, parse, bcrypt_compare_M,
    verify, sign, console_error, NextResponse_json, json_response,
    mbind, M_bind, mret, M_ret, throw in *.

(** ** The query shim *)

(** C8.  [db.query(text, params)] hands both arguments unchanged to
    [pool.query] and returns what it returns: the two are the same
    computation, result and effect on the world included. *)
Theorem db_query_is_pool_query (E : Env) (text : string) (params : list value) :
  db_query E text params = pool_query E text params.
Proof. reflexivity. Qed.

(** ** The schemas on sample bodies *)

Example login_body_accepted :
  session.schema demo.env
    (VObj [("email", VStr "ada@example.com"); ("password", VStr "secret")])
  = Success
      (VObj [("email", VStr "ada@example.com"); ("password", VStr "secret")]).
Proof. reflexivity. Qed.

Example login_short_password_refused :
  session.schema demo.env
    (VObj [("email", VStr "ada@example.com"); ("password", VStr "12345")])
  = Failure [Issue "too_small" ["password"] "Invalid input" true].
Proof. reflexivity. Qed.

(** Five characters in seven bytes. *)
Example login_counts_characters :
  js_length "ñandú" = 5%nat /\
  session.schema demo.env
    (VObj [("email", VStr "ada@example.com"); ("password", VStr "ñandú")])
  = Failure [Issue "too_small" ["password"] "Invalid input" true].
Proof. split; reflexivity. Qed.

Example camera_body_without_url_accepted :
  camera.cameraSchema demo.env
    (VObj [("name", VStr "gate"); ("locationId", num 100)])
  = Success (VObj [("name", VStr "gate"); ("locationId", num 100)]).
Proof. reflexivity. Qed.

Example camera_body_refused :
  camera.cameraSchema demo.env
    (VObj [("name", VStr ""); ("streamUrl", VStr "not a url");
           ("locationId", num 0)])
  = Failure [Issue "too_small" ["name"] "Camera name is required" true;
             Issue "invalid_format" ["streamUrl"] "Invalid URL format" true;
             Issue "too_small" ["locationId"]
               "Location ID must be a positive integer" true].
Proof. reflexivity. Qed.

Example camera_fractional_location_refused :
  camera.cameraSchema demo.env
    (VObj [("name", VStr "gate"); ("locationId", VNum (3 # 2))])
  = Failure [Issue "invalid_type" ["locationId"] "Invalid input" false].
Proof. reflexivity. Qed.

Example camera_padded_url_trimmed :
  camera.cameraSchema demo.env
    (demo.camera_body "gate" (VStr " http://cam/1 ") 100)
  = Success (demo.camera_body "gate" (VStr "http://cam/1") 100).
Proof. reflexivity. Qed.

Example token_lifetimes :
  lifetime {| expiresIn := "15m" |} = Some 900%Z /\
  lifetime {| expiresIn := "7d" |} = Some 604800%Z /\
  lifetime {| expiresIn := "1.5 Hours" |} = Some 5400%Z /\
  lifetime {| expiresIn := "soon" |} = None.
Proof. repeat split. Qed.

(** ** What the schemas accept and return *)

Section Fields.
Variable E : Env.

(** The issues and the output of an object, key by key. *)
Lemma object_fields_issues (shape : list (string * zod_schema)) (v : value) :
  fst (object_fields shape v)
  = concat (map (fun ks => match snd ks (prop v (fst ks)) with
                           | Failure i => prefix_issues (fst ks) i
                           | Success _ => []
                           end) shape).
Proof.
  induction shape as [|[k s] rest IH]; [reflexivity|]. simpl.
  destruct (object_fields rest v) as [iss out]. simpl in IH. subst iss.
  destruct (s (prop v k)) as [[]|i]; reflexivity.
Qed.

Lemma object_fields_out (shape : list (string * zod_schema)) (v : value) :
  snd (object_fields shape v)
  = concat (map (fun ks => match snd ks (prop v (fst ks)) with
                           | Success VUndefined =>
                               if has_key v (fst ks)
                               then [(fst ks, VUndefined)] else []
                           | Success d => [(fst ks, d)]
                           | Failure _ => []
                           end) shape).
Proof.
  induction shape as [|[k s] rest IH]; [reflexivity|]. simpl.
  destruct (object_fields rest v) as [iss out]. simpl in IH. subst out.
  destruct (s (prop v k)) as [[]|i]; try reflexivity.
  simpl. destruct (has_key v k); reflexivity.
Qed.

Lemma z_object_fields (shape : list (string * zod_schema))
    (fields : list (string * value)) :
  z_object E shape (VObj fields)
  = match fst (object_fields shape (VObj fields)) with
    | [] => Success (VObj (snd (object_fields shape (VObj fields))))
    | iss => Failure iss
    end.
Proof.
  unfold z_object. destruct (object_fields shape (VObj fields)) as [[|i iss] out];
    reflexivity.
Qed.

(** [z.string().min(n, msg)] *)
Lemma name_field (n : nat) (msg : option string) (v : value) :
  (string_of_min n v = true /\ z_string E [z_min E n msg] v = Success v) \/
  (string_of_min n v = false /\
   exists i iss, z_string E [z_min E n msg] v = Failure (i :: iss)).
Proof.
  unfold z_string, with_checks, string_of_min.
  destruct v; cbn; try (right; split; [reflexivity|]; eauto).
  - destruct (n <=? js_length s)%nat; cbn; eauto.
  - destruct (n <=? length items)%nat; cbn; eauto.
Qed.

Lemma short_string (n : nat) (msg : option string) (s : string) :
  (js_length s < n)%nat ->
  z_string E [z_min E n msg] (VStr s)
  = Failure [issue_of E "too_small" "string" (Some (Z.of_nat n)) (VStr s)
               msg true].
Proof.
  intros H. unfold z_string, with_checks. cbn.
  destruct (Nat.leb_spec n (js_length s)); [lia|reflexivity].
Qed.

(** [z.email()] *)
Lemma email_field (v : value) :
  (email_ok E v = true /\ z_email E [] v = Success v) \/
  (email_ok E v = false /\ exists i iss, z_email E [] v = Failure (i :: iss)).
Proof.
  unfold z_email, with_checks, email_ok.
  destruct v; cbn; try (right; split; [reflexivity|]; eauto).
  destruct (is_email E s); cbn; eauto.
Qed.

(** [z.string().url(msg).optional().or(z.literal(""))] *)
Lemma stream_url_field (v : value) :
  (stream_url_ok E v = true /\
   z_or E (z_optional (z_string E [z_url E (Some "Invalid URL format")]))
          (z_literal E "") v = Success (stream_url_out E v)) \/
  (stream_url_ok E v = false /\
   z_or E (z_optional (z_string E [z_url E (Some "Invalid URL format")]))
          (z_literal E "") v
   = Failure [match v with
              | VStr _ => issue_of E "invalid_format" "url" None v
                            (Some "Invalid URL format") true
              | _ => issue_of E "invalid_union" "" None v None false
              end]).
Proof.
  unfold z_or, z_optional, z_string, with_checks, z_literal, stream_url_ok,
    stream_url_out.
  destruct v; cbn; auto.
  destruct (zod_url E s) as [out|] eqn:Hu; cbn; auto.
  destruct (String.eqb s ""); cbn; auto.
Qed.

(** [z.number().int().positive(msg)] *)
Lemma location_field (msg : option string) (v : value) :
  (location_ok v = true /\
   z_number E [z_int E; z_positive E msg] v = Success v) \/
  (location_ok v = false /\
   exists i iss, z_number E [z_int E; z_positive E msg] v = Failure (i :: iss)).
Proof.
  unfold z_number, with_checks, location_ok, is_integer.
  destruct v; cbn; try (right; split; [reflexivity|]; eauto).
  destruct (Qnum q mod Z.pos (Qden q) =? 0)%Z; cbn; [|eauto].
  destruct (Z.ltb_spec MAX_SAFE_INTEGER (Qnum q / Z.pos (Qden q))); cbn.
  - right. split.
    + destruct (0 <? Qnum q)%Z; cbn; [|reflexivity].
      apply Z.leb_gt. assumption.
    + destruct (0 <? Qnum q)%Z; cbn; eauto.
  - destruct (Z.ltb_spec (Qnum q / Z.pos (Qden q)) (- MAX_SAFE_INTEGER)); cbn.
    + right. split.
      * destruct (Z.ltb_spec 0 (Qnum q)); cbn; [|reflexivity].
        assert (0 <= Qnum q / Z.pos (Qden q))%Z by (apply Z.div_pos; lia).
        unfold MAX_SAFE_INTEGER in *. lia.
      * destruct (0 <? Qnum q)%Z; cbn; eauto.
    + destruct (0 <? Qnum q)%Z; cbn.
      * left. split; [|reflexivity]. apply Z.leb_le. assumption.
      * right. eauto.
Qed.

Lemma location_not_positive (msg : option string) (z : Z) :
  (- MAX_SAFE_INTEGER <= z <= 0)%Z ->
  z_number E [z_int E; z_positive E msg] (num z)
  = Failure [issue_of E "too_small" "number" (Some 0%Z) (num z) msg true].
Proof.
  intros Hz. unfold z_number, with_checks, num. cbn.
  rewrite Z.mod_1_r, Z.div_1_r. cbn.
  destruct (Z.ltb_spec MAX_SAFE_INTEGER z);
    [unfold MAX_SAFE_INTEGER in *; lia|].
  destruct (Z.ltb_spec z (- MAX_SAFE_INTEGER)); [lia|]. cbn.
  destruct (Z.ltb_spec 0 z); [lia|]. reflexivity.
Qed.

(** The login schema, case by case. *)
Lemma login_schema_cases (b : value) :
  if login_body_ok E b
  then session.schema E b
       = Success (VObj [("email", prop b "email");
                        ("password", prop b "password")])
  else exists i iss, session.schema E b = Failure (i :: iss).
Proof.
  unfold login_body_ok, session.schema.
  destruct b; try solve [cbn; eauto]. cbn [is_object andb].
  rewrite z_object_fields, object_fields_issues, object_fields_out. cbn.
  destruct (email_field (prop (VObj fields) "email"))
    as [[He ->] | [-> (i & iss & ->)]];
  destruct (name_field 6 None (prop (VObj fields) "password"))
    as [[Hp ->] | [-> (j & jss & ->)]]; cbn;
  rewrite ?He, ?Hp, ?andb_false_r; cbn; eauto;
  try (destruct (prop (VObj fields) "email"); cbn; eauto; fail).
  destruct (prop (VObj fields) "email") eqn:Ee; try discriminate.
  destruct (prop (VObj fields) "password"); try discriminate. reflexivity.
Qed.

(** The camera schema, case by case. *)
Lemma camera_schema_cases (b : value) :
  if camera_body_ok E b
  then camera.cameraSchema E b = Success (camera_parsed E b)
  else exists i iss, camera.cameraSchema E b = Failure (i :: iss).
Proof.
  unfold camera_body_ok, camera.cameraSchema, camera_parsed.
  destruct b; try solve [cbn; eauto]. cbn [is_object andb].
  rewrite z_object_fields, object_fields_issues, object_fields_out. cbn.
  destruct (name_field 1 (Some "Camera name is required")
              (prop (VObj fields) "name"))
    as [[Hn ->] | [-> (i & iss & ->)]];
  destruct (stream_url_field (prop (VObj fields) "streamUrl"))
    as [[Hu ->] | [-> ->]];
  destruct (location_field (Some "Location ID must be a positive integer")
              (prop (VObj fields) "locationId"))
    as [[Hl ->] | [-> (j & jss & ->)]];
  try solve [rewrite ?Hn, ?Hu, ?Hl, ?andb_false_r; cbn; eauto].
  rewrite Hn, Hu, Hl. cbn.
  destruct (prop (VObj fields) "name") eqn:En; try discriminate.
  destruct (prop (VObj fields) "locationId") eqn:El; try discriminate.
  destruct (prop (VObj fields) "streamUrl") eqn:Eu; try discriminate;
    cbn; [|reflexivity].
  destruct (has_key (VObj fields) "streamUrl"); reflexivity.
Qed.

Lemma cameraSchema_ok (b parsed : value) :
  camera.cameraSchema E b = Success parsed ->
  camera_body_ok E b = true /\ parsed = camera_parsed E b.
Proof.
  intros H. pose proof (camera_schema_cases b) as Hc.
  destruct (camera_body_ok E b).
  - rewrite Hc in H. injection H as <-. auto.
  - destruct Hc as (i & iss & Hc). congruence.
Qed.

(** A refusal of the camera schema carries at least one issue. *)
Lemma cameraSchema_loud (b : value) (iss : list issue) :
  camera.cameraSchema E b = Failure iss -> exists i rest, iss = i :: rest.
Proof.
  intros H. pose proof (camera_schema_cases b) as Hc.
  destruct (camera_body_ok E b).
  - congruence.
  - destruct Hc as (i & rest & Hc). rewrite Hc in H. injection H as <-. eauto.
Qed.

(** The properties of the camera schema's output: name and locationId
    are the body's, streamUrl is what the url check made of the body's. *)
Lemma camera_parsed_props (b : value) :
  prop (camera_parsed E b) "name" = prop b "name" /\
  prop (camera_parsed E b) "streamUrl" = stream_url_out E (prop b "streamUrl") /\
  prop (camera_parsed E b) "locationId" = prop b "locationId".
Proof.
  unfold camera_parsed. split; [reflexivity|].
  destruct (prop b "streamUrl") eqn:Eu; cbn; try (split; reflexivity).
  destruct (has_key b "streamUrl"); split; reflexivity.
Qed.

End Fields.

(** ** POST /api/configs/camera *)

Section Camera.
Variable E : Env.

(** An authenticated request passes the cookie guard and the token check. *)
Lemma camera_guard (req : NextRequest) (decoded : value) :
  authenticated E req decoded ->
  truthy (cookie_value req "accessToken") = true /\
  jwt_verify E (cookie_value req "accessToken") (JWT_ACCESS_SECRET E)
    = Some decoded.
Proof.
  intros (tok & Hc & Hne & Hv). unfold cookie_value. rewrite Hc. simpl.
  split; [|exact Hv]. apply String.eqb_neq in Hne. now rewrite Hne.
Qed.

Lemma sql_texts_differ : camera.insert_sql <> camera.ownership_sql.
Proof. discriminate. Qed.

End Camera.

(** C1.  For a camera request that is authenticated and whose body the
    schema accepts: the queries the handler sends contain an INSERT only if
    the ownership query, sent for the body's locationId and the token's
    userId, came back with at least one row; and when that query comes back
    with no row, the response is 404 "Location not found or does not belong
    to user" and the ownership query is the only query sent. *)
Theorem camera_insert_only_for_owned_location
    (E : Env) (req : NextRequest) (w : world E) (decoded body parsed : value) :
  authenticated E req decoded ->
  json req = Some body ->
  camera.cameraSchema E body = Success parsed ->
  (exists sent,
     sql_log (after (camera.POST E req) w) = sql_log w ++ sent /\
     ((exists params, (camera.insert_sql, params) ∈ sent) ->
      exists r rs d,
        ownership_answer E parsed decoded w = (inr {| rows := r :: rs |}, d)))
  /\
  (forall d,
     ownership_answer E parsed decoded w = (inr {| rows := [] |}, d) ->
     response (camera.POST E req) w
       = inr (json_response 404 "Location not found or does not belong to user")
     /\ sql_log (after (camera.POST E req) w)
        = sql_log w ++ [(camera.ownership_sql,
                         [prop parsed "locationId"; prop decoded "userId"])]).
Proof.
  intros Ha Hj Hs. apply camera_guard in Ha as [Ht Hv].
  unfold ownership_answer. run. rewrite Ht, Hv, Hj, Hs. simpl.
  destruct (pg_query E camera.ownership_sql _ (db w)) as [[e|[[|r rs]]] d] eqn:Hq;
    simpl.
  - split; [|discriminate]. eexists; split; [reflexivity|].
    intros [p Hin]. apply list_elem_of_singleton in Hin.
    destruct (sql_texts_differ (f_equal fst Hin)).
  - split.
    + eexists; split; [reflexivity|].
      intros [p Hin]. apply list_elem_of_singleton in Hin.
      destruct (sql_texts_differ (f_equal fst Hin)).
    + intros d' [= <-]. split; reflexivity.
  - split; [|discriminate].
    exists [(camera.ownership_sql,
             [prop parsed "locationId"; prop decoded "userId"]);
            (camera.insert_sql,
             [prop parsed "name"; js_or (prop parsed "streamUrl") VNull;
              prop parsed "locationId"])].
    split; [|eauto].
    destruct (pg_query E camera.insert_sql _ d) as [[e|[[|r' rs']]] d'];
      simpl; now rewrite <- app_assoc.
Qed.

(** C10, as the handler has it.  When the INSERT is sent, its stream_url
    parameter is NULL if the body's streamUrl is absent or the empty
    string; for a non-empty streamUrl it is the string zod's url check
    made of it (NULL should that string be empty), so the body's string
    itself where the check leaves it as it is. *)
Theorem camera_stream_url_parameter
    (E : Env) (req : NextRequest) (w : world E) (decoded body parsed : value)
    (r : list (string * value)) (rs : list (list (string * value))) (d : DB E) :
  authenticated E req decoded ->
  json req = Some body ->
  camera.cameraSchema E body = Success parsed ->
  ownership_answer E parsed decoded w = (inr {| rows := r :: rs |}, d) ->
  exists stream_url,
    sql_log (after (camera.POST E req) w)
      = sql_log w ++
        [(camera.ownership_sql, [prop body "locationId"; prop decoded "userId"]);
         (camera.insert_sql,
          [prop body "name"; stream_url; prop body "locationId"])] /\
    (prop body "streamUrl" = VUndefined \/ prop body "streamUrl" = VStr "" ->
     stream_url = VNull) /\
    (forall s, prop body "streamUrl" = VStr s -> s <> "" ->
       exists out,
         zod_url E s = Some out /\ stream_url = js_or (VStr out) VNull) /\
    (forall s, prop body "streamUrl" = VStr s -> s <> "" ->
       zod_url E s = Some s -> stream_url = VStr s).
Proof.
  intros Ha Hj Hs Hq. apply camera_guard in Ha as [Ht Hv].
  destruct (cameraSchema_ok E body parsed Hs) as [Hok ->].
  destruct (camera_parsed_props E body) as (Hn & Hu & Hl).
  unfold ownership_answer in Hq.
  exists (js_or (stream_url_out E (prop body "streamUrl")) VNull).
  split; [|split; [|split]].
  - run. rewrite Ht, Hv, Hj, Hs. simpl. rewrite Hq. simpl.
    rewrite Hn, Hu, Hl.
    destruct (pg_query E camera.insert_sql _ d) as [[e|[[|r' rs']]] d'];
      simpl; now rewrite <- app_assoc.
  - intros [-> | ->]; [reflexivity|].
    unfold stream_url_out. now rewrite (zod_url_empty E).
  - intros s Hs' Hne. unfold camera_body_ok in Hok. rewrite Hs' in Hok.
    apply andb_prop in Hok as [Hok _]. apply andb_prop in Hok as [_ Hok].
    simpl in Hok. apply String.eqb_neq in Hne. rewrite Hne, orb_false_r in Hok.
    apply bool_decide_eq_true in Hok as [out Hout].
    exists out. split; [exact Hout|]. unfold stream_url_out.
    rewrite Hs'. cbn. now rewrite Hout.
  - intros s -> Hne Hout. unfold stream_url_out, js_or. rewrite Hout. simpl.
    apply String.eqb_neq in Hne. now rewrite Hne.
Qed.

(** C3, as the handler has it.  A request whose accessToken cookie is
    absent or has the empty value is answered 401 "Unauthorized" with the
    world untouched, so before any query; a request whose cookie has a
    non-empty value that fails verification is answered 500 "Error adding
    camera", again without a query. *)
Theorem camera_token_guard (E : Env) (req : NextRequest) (w : world E) :
  (cookies req !! "accessToken" = None \/ cookies req !! "accessToken" = Some "" ->
   camera.POST E req w = (inr (json_response 401 "Unauthorized"), w))
  /\
  (forall tok,
     cookies req !! "accessToken" = Some tok -> tok <> "" ->
     jwt_verify E (VStr tok) (JWT_ACCESS_SECRET E) = None ->
     response (camera.POST E req) w
       = inr (json_response 500 "Error adding camera") /\
     sql_log (after (camera.POST E req) w) = sql_log w).
Proof.
  split.
  - intros Hc. run. unfold cookie_value. now destruct Hc as [-> | ->].
  - intros tok Hc Hne Hv. run. unfold cookie_value. rewrite Hc. simpl.
    apply String.eqb_neq in Hne. rewrite Hne. simpl. rewrite Hv. simpl. auto.
Qed.

(** C4, as the handlers have it.  A body the login schema refuses is
    answered 400 with no query sent.  A body the camera schema refuses
    never leads to a query; it is answered 400 when the request is
    authenticated, and otherwise by the checks that come first: 401 when
    the accessToken cookie is absent or empty, 500 when its value does
    not verify. *)
Theorem schema_failure_is_400_without_sql
    (E : Env) (req : NextRequest) (w : world E) (body : value) :
  json req = Some body ->
  (forall iss,
     session.schema E body = Failure iss ->
     (exists resp,
        response (session.POST E req) w = inr resp /\ status resp = 400%Z) /\
     sql_log (after (session.POST E req) w) = sql_log w)
  /\
  (forall iss,
     camera.cameraSchema E body = Failure iss ->
     sql_log (after (camera.POST E req) w) = sql_log w /\
     (forall decoded,
        authenticated E req decoded ->
        exists resp,
          response (camera.POST E req) w = inr resp /\ status resp = 400%Z) /\
     (cookies req !! "accessToken" = None \/
      cookies req !! "accessToken" = Some "" ->
      response (camera.POST E req) w
      = inr (json_response 401 "Unauthorized")) /\
     (forall tok,
        cookies req !! "accessToken" = Some tok -> tok <> "" ->
        jwt_verify E (VStr tok) (JWT_ACCESS_SECRET E) = None ->
        response (camera.POST E req) w
        = inr (json_response 500 "Error adding camera"))).
Proof.
  intros Hj. split; intros iss Hs.
  - run. rewrite Hj, Hs. simpl. eauto.
  - split; [|split; [|split]].
    + run. destruct (truthy _); [|reflexivity].
      destruct (jwt_verify E _ _); simpl; [|reflexivity].
      rewrite Hj, Hs. reflexivity.
    + intros decoded Ha. apply camera_guard in Ha as [Ht Hv].
      run. rewrite Ht, Hv, Hj, Hs. simpl. eauto.
    + intros Hc. run. unfold cookie_value. now destruct Hc as [-> | ->].
    + intros tok Hc Hne Hv. run. unfold cookie_value. rewrite Hc. simpl.
      apply String.eqb_neq in Hne. rewrite Hne. simpl. rewrite Hv. reflexivity.
Qed.


(** ** POST and DELETE /api/auth/session *)

Arguments lifetime : simpl never.

Lemma lifetime_15m : lifetime {| expiresIn := "15m" |} = Some (15 * 60)%Z.
Proof. reflexivity. Qed.

Lemma lifetime_7d : lifetime {| expiresIn := "7d" |} = Some (60 * 60 * 24 * 7)%Z.
Proof. reflexivity. Qed.

Lemma usable_secret (secret : option string) :
  usable secret = true -> exists s, secret = Some s /\ String.eqb s "" = false.
Proof.
  destruct secret as [s|]; [|discriminate]. simpl.
  destruct (String.eqb s "") eqn:Hs; simpl; [discriminate|]. eauto.
Qed.

Section Session.
Variable E : Env.

Lemma login_refused (req : NextRequest) (w : world E) (body parsed : value) :
  json req = Some body ->
  session.schema E body = Success parsed ->
  no_user_row E parsed w \/ password_mismatch E parsed w ->
  response (session.POST E req) w
    = inr (json_response 401 "Invalid credentials").
Proof.
  intros Hj Hs Href. unfold no_user_row, password_mismatch, users_answer in Href.
  run. rewrite Hj, Hs. simpl.
  destruct Href as [[d Hq] | (r & rs & d & Hq & Hb)]; rewrite Hq; simpl.
  - reflexivity.
  - rewrite Hb. reflexivity.
Qed.

(** With both secrets usable, a login whose password matches is accepted. *)
Lemma login_accepted (req : NextRequest) (w : world E) (body parsed : value)
    (r : list (string * value)) (s1 s2 : string) :
  json req = Some body ->
  session.schema E body = Success parsed ->
  password_match E parsed w r ->
  JWT_ACCESS_SECRET E = Some s1 -> s1 <> "" ->
  JWT_REFRESH_SECRET E = Some s2 -> s2 <> "" ->
  response (session.POST E req) w
    = inr (new_NextResponse
             (JSON_stringify (VObj [("message", VStr "Login successful")]))
             [("Set-Cookie",
               (serialize "accessToken"
                 (jwt_sign E (token_payload r) s1 {| expiresIn := "15m" |})
                 (session_options E (15 * 60))
               ++ ", " ++
               serialize "refreshToken"
                 (jwt_sign E (token_payload r) s2 {| expiresIn := "7d" |})
                 (session_options E (60 * 60 * 24 * 7)))%string)]).
Proof.
  intros Hj Hs (rs & d & Hq & Hb) H1 Hn1 H2 Hn2. unfold users_answer in Hq.
  apply String.eqb_neq in Hn1, Hn2.
  run. rewrite Hj, Hs. simpl. rewrite Hq. simpl. rewrite Hb. simpl.
  rewrite ?lifetime_15m, ?lifetime_7d, H1, Hn1. simpl.
  rewrite ?lifetime_7d, H2, Hn2. reflexivity.
Qed.

(** With a secret that is unset or empty, it is answered 500. *)
Lemma login_unsigned (req : NextRequest) (w : world E) (body parsed : value)
    (r : list (string * value)) :
  json req = Some body ->
  session.schema E body = Success parsed ->
  password_match E parsed w r ->
  usable (JWT_ACCESS_SECRET E) = false \/
  usable (JWT_REFRESH_SECRET E) = false ->
  response (session.POST E req) w
    = inr (json_response 500 "Internal server error").
Proof.
  intros Hj Hs (rs & d & Hq & Hb) Hu. unfold users_answer in Hq.
  run. rewrite Hj, Hs. simpl. rewrite Hq. simpl. rewrite Hb. simpl.
  rewrite ?lifetime_15m, ?lifetime_7d. unfold usable in Hu.
  destruct (JWT_ACCESS_SECRET E) as [s1|]; [|reflexivity].
  destruct (String.eqb s1 ""); [reflexivity|]. simpl.
  destruct Hu as [Hu | Hu]; [discriminate|].
  destruct (JWT_REFRESH_SECRET E) as [s2|]; [|reflexivity].
  destruct (String.eqb s2 ""); [reflexivity|discriminate].
Qed.

(** The only 401 answers of a login whose body the schema accepts are the
    two refusals. *)
Lemma login_401_refused (req : NextRequest) (w : world E) (body parsed : value)
    (resp : NextResponse) :
  json req = Some body ->
  session.schema E body = Success parsed ->
  response (session.POST E req) w = inr resp ->
  status resp = 401%Z ->
  no_user_row E parsed w \/ password_mismatch E parsed w.
Proof.
  intros Hj Hs. unfold no_user_row, password_mismatch, users_answer.
  run. rewrite Hj, Hs. simpl.
  destruct (pg_query E session.users_sql _ (db w)) as [[e|[[|r rs]]] d];
    simpl.
  - intros [= <-]. discriminate.
  - eauto.
  - destruct (bcrypt_compare E _ _) as [[|]|] eqn:Hb; simpl;
      try (intros [= <-]; discriminate); [|right; eauto 6].
    rewrite ?lifetime_15m, ?lifetime_7d.
    destruct (JWT_ACCESS_SECRET E) as [s1|]; [|intros [= <-]; discriminate].
    destruct (String.eqb s1 ""); simpl; [intros [= <-]; discriminate|].
    destruct (JWT_REFRESH_SECRET E) as [s2|]; [|intros [= <-]; discriminate].
    destruct (String.eqb s2 ""); simpl; intros [= <-]; discriminate.
Qed.

End Session.

(** Every run of the login follows one of the paths. *)
Lemma login_path_of_run (E : Env) (req : NextRequest) (w : world E) :
  exists resp,
    response (session.POST E req) w = inr resp /\ login_path E req w resp.
Proof.
  destruct (json req) as [b|] eqn:Hj.
  2:{ exists (json_response 500 "Internal server error"). split.
      - run. now rewrite Hj.
      - now constructor. }
  pose proof (login_schema_cases E b) as Hs.
  destruct (login_body_ok E b).
  2:{ destruct Hs as (i & iss & Hs).
      exists (json_response 400 (ZodError_message E (i :: iss))). split.
      - run. now rewrite Hj, Hs.
      - econstructor; eauto. }
  set (parsed := VObj [("email", prop b "email");
                       ("password", prop b "password")]) in *.
  destruct (users_answer E parsed w) as [[e|[[|r rs]]] d] eqn:Hq.
  - exists (json_response 500 "Internal server error"). split.
    + unfold users_answer in Hq. run. rewrite Hj, Hs. simpl.
      fold parsed. now rewrite Hq.
    + eapply path_query_failed; eauto. red. eauto.
  - exists (json_response 401 "Invalid credentials"). split.
    + apply (login_refused E req w b parsed Hj Hs). left. red. eauto.
    + eapply path_no_row; eauto. red. eauto.
  - destruct (bcrypt_compare E (prop parsed "password")
                (prop (VObj r) "password")) as [[|]|] eqn:Hb.
    + assert (Hm : password_match E parsed w r) by (red; eauto).
      destruct (usable (JWT_ACCESS_SECRET E)) eqn:U1;
        [destruct (usable (JWT_REFRESH_SECRET E)) eqn:U2|].
      * apply usable_secret in U1 as (s1 & H1 & Hn1).
        apply usable_secret in U2 as (s2 & H2 & Hn2).
        apply String.eqb_neq in Hn1, Hn2.
        eexists. split.
        -- exact (login_accepted E req w b parsed r s1 s2
                    Hj Hs Hm H1 Hn1 H2 Hn2).
        -- eapply path_accepted; eauto.
      * exists (json_response 500 "Internal server error"). split.
        -- apply (login_unsigned E req w b parsed r Hj Hs Hm). auto.
        -- eapply path_unsigned; eauto.
      * exists (json_response 500 "Internal server error"). split.
        -- apply (login_unsigned E req w b parsed r Hj Hs Hm). auto.
        -- eapply path_unsigned; eauto.
    + exists (json_response 401 "Invalid credentials"). split.
      * apply (login_refused E req w b parsed Hj Hs). right. red. eauto 6.
      * eapply path_mismatch; eauto. red. eauto 6.
    + exists (json_response 500 "Internal server error"). split.
      * unfold users_answer in Hq. run. rewrite Hj, Hs. simpl.
        fold parsed. rewrite Hq. simpl. now rewrite Hb.
      * eapply path_compare_rejected; eauto. red. eauto 6.
Qed.

(** Whatever the request, a login response with a Set-Cookie header is
    the response of an accepted login. *)
Lemma login_cookie_header (E : Env) (req : NextRequest) (w : world E)
    (resp : NextResponse) (h : string) :
  response (session.POST E req) w = inr resp ->
  header (headers resp) "Set-Cookie" = Some h ->
  exists b parsed r s1 s2,
    json req = Some b /\ session.schema E b = Success parsed /\
    password_match E parsed w r /\
    JWT_ACCESS_SECRET E = Some s1 /\ s1 <> "" /\
    JWT_REFRESH_SECRET E = Some s2 /\ s2 <> "" /\
    h = (serialize "accessToken"
           (jwt_sign E (token_payload r) s1 {| expiresIn := "15m" |})
           (session_options E (15 * 60))
         ++ ", " ++
         serialize "refreshToken"
           (jwt_sign E (token_payload r) s2 {| expiresIn := "7d" |})
           (session_options E (60 * 60 * 24 * 7)))%string.
Proof.
  intros Hr Hh. destruct (login_path_of_run E req w) as (resp' & Hr' & Hp).
  rewrite Hr in Hr'. injection Hr' as <-.
  destruct Hp; try discriminate Hh.
  injection Hh as <-. exists b, parsed, r, s1, s2. auto 10.
Qed.

(** The text of a session cookie: its HttpOnly, SameSite and Path
    attributes are in the serialization. *)
Lemma serialize_session_cookie (name val : string) (o : SerializeOptions) :
  session_cookie o ->
  serialize name val o
  = (name ++ "=" ++ encodeURIComponent val
     ++ "; Max-Age=" ++ string_of_Z (maxAge o)
     ++ "; Path=/; HttpOnly" ++ (if secure o then "; Secure" else "")
     ++ "; SameSite=Strict")%string.
Proof.
  intros (Hh & Hs & Hp). unfold serialize. rewrite Hh, Hs, Hp. reflexivity.
Qed.

(** C2, as the handler has it.  For a login whose body the schema
    accepts: the answer is 401 exactly when the users query came back
    without a row or bcrypt found the password not to match the first
    row's hash, and it then carries the message "Invalid credentials";
    when there is a row, bcrypt finds a match and both JWT secrets are
    set and not empty, the answer carries "Login successful" and a
    Set-Cookie header with an accessToken and a refreshToken signed for
    the row's id; with a match and a secret that is unset or empty, the
    answer is 500 "Internal server error". *)
Theorem login_credentials
    (E : Env) (req : NextRequest) (w : world E) (body parsed : value) :
  json req = Some body ->
  session.schema E body = Success parsed ->
  ((exists resp,
      response (session.POST E req) w = inr resp /\ status resp = 401%Z)
   <-> no_user_row E parsed w \/ password_mismatch E parsed w)
  /\
  (no_user_row E parsed w \/ password_mismatch E parsed w ->
   response (session.POST E req) w
     = inr (json_response 401 "Invalid credentials"))
  /\
  (forall r s1 s2,
     password_match E parsed w r ->
     JWT_ACCESS_SECRET E = Some s1 -> s1 <> "" ->
     JWT_REFRESH_SECRET E = Some s2 -> s2 <> "" ->
     exists resp o1 o2,
       response (session.POST E req) w = inr resp /\
       body_text resp
       = JSON_stringify (VObj [("message", VStr "Login successful")]) /\
       header (headers resp) "Set-Cookie"
         = Some (serialize "accessToken"
                   (jwt_sign E (VObj [("userId", prop (VObj r) "id")])
                      s1 {| expiresIn := "15m" |}) o1
                 ++ ", " ++
                 serialize "refreshToken"
                   (jwt_sign E (VObj [("userId", prop (VObj r) "id")])
                      s2 {| expiresIn := "7d" |}) o2)%string)
  /\
  (forall r,
     password_match E parsed w r ->
     usable (JWT_ACCESS_SECRET E) = false \/
     usable (JWT_REFRESH_SECRET E) = false ->
     response (session.POST E req) w
       = inr (json_response 500 "Internal server error")).
Proof.
  intros Hj Hs. split; [split|split; [|split]].
  - intros (resp & Hr & H401).
    exact (login_401_refused E req w body parsed resp Hj Hs Hr H401).
  - intros Href. rewrite (login_refused E req w body parsed Hj Hs Href).
    eexists; split; reflexivity.
  - exact (login_refused E req w body parsed Hj Hs).
  - intros r s1 s2 Hm H1 Hn1 H2 Hn2.
    rewrite (login_accepted E req w body parsed r s1 s2 Hj Hs Hm H1 Hn1 H2 Hn2).
    do 3 eexists. split; [reflexivity|]. split; reflexivity.
  - intros r Hm Hu. exact (login_unsigned E req w body parsed r Hj Hs Hm Hu).
Qed.

(** C9.  Two logins with schema-valid bodies, one for an e-mail without a
    user row and one with a row whose hash does not match the password,
    get the same response: 401 with the body [{ message: "Invalid
    credentials" }]. *)
Theorem login_refusals_are_identical
    (E : Env) (req1 req2 : NextRequest) (w1 w2 : world E)
    (body1 parsed1 body2 parsed2 : value) :
  json req1 = Some body1 -> session.schema E body1 = Success parsed1 ->
  json req2 = Some body2 -> session.schema E body2 = Success parsed2 ->
  no_user_row E parsed1 w1 ->
  password_mismatch E parsed2 w2 ->
  response (session.POST E req1) w1 = response (session.POST E req2) w2 /\
  response (session.POST E req1) w1
    = inr {| status := 401;
             headers := [("content-type", "application/json")];
             body_text := JSON_stringify
                       (VObj [("message", VStr "Invalid credentials")]) |}.
Proof.
  intros Hj1 Hs1 Hj2 Hs2 Hno Hbad.
  rewrite (login_refused E req1 w1 body1 parsed1 Hj1 Hs1 (or_introl Hno)).
  rewrite (login_refused E req2 w2 body2 parsed2 Hj2 Hs2 (or_intror Hbad)).
  split; reflexivity.
Qed.

(** C5.  On a successful login, that is whenever the login is answered
    200, the access token is signed with expiresIn "15m" and the refresh
    token with "7d"; the lifetimes these stand for, 900 and 604800
    seconds, are the maxAge of the respective cookies. *)
Theorem login_token_lifetimes
    (E : Env) (req : NextRequest) (w : world E) (resp : NextResponse) :
  response (session.POST E req) w = inr resp ->
  status resp = 200%Z ->
  exists payload s1 s2 so1 so2 o1 o2,
    JWT_ACCESS_SECRET E = Some s1 /\ JWT_REFRESH_SECRET E = Some s2 /\
    header (headers resp) "Set-Cookie"
      = Some (serialize "accessToken" (jwt_sign E payload s1 so1) o1
              ++ ", " ++
              serialize "refreshToken" (jwt_sign E payload s2 so2) o2)%string /\
    expiresIn so1 = "15m" /\ lifetime so1 = Some (15 * 60)%Z /\
    maxAge o1 = (15 * 60)%Z /\ (15 * 60 = 900)%Z /\
    expiresIn so2 = "7d" /\ lifetime so2 = Some (60 * 60 * 24 * 7)%Z /\
    maxAge o2 = (60 * 60 * 24 * 7)%Z /\ (60 * 60 * 24 * 7 = 604800)%Z.
Proof.
  intros Hr H200. destruct (login_path_of_run E req w) as (resp' & Hr' & Hp).
  rewrite Hr in Hr'. injection Hr' as <-.
  destruct Hp; try discriminate H200.
  exists (token_payload r), s1, s2, {| expiresIn := "15m" |},
    {| expiresIn := "7d" |}, (session_options E (15 * 60)),
    (session_options E (60 * 60 * 24 * 7)).
  repeat split; assumption.
Qed.

(** C6.  DELETE takes no request, so its answer cannot depend on one: it
    is 200 "Logout successful", its Set-Cookie header serializes
    accessToken and refreshToken with the empty value and maxAge -1, and
    the world is left as it was (no query is sent). *)
Theorem logout_clears_cookies (E : Env) (w : world E) :
  exists resp o1 o2,
    session.DELETE E w = (inr resp, w) /\
    status resp = 200%Z /\
    body_text resp = JSON_stringify (VObj [("message", VStr "Logout successful")]) /\
    header (headers resp) "Set-Cookie"
      = Some (serialize "accessToken" "" o1 ++ ", "
              ++ serialize "refreshToken" "" o2)%string /\
    maxAge o1 = (-1)%Z /\ maxAge o2 = (-1)%Z.
Proof.
  do 3 eexists. split; [reflexivity|]. repeat split.
Qed.

(** C7.  The Set-Cookie header of any response of the login POST or of
    the logout DELETE is made of two serializations, accessToken and
    refreshToken, each with httpOnly true, sameSite strict and path "/". *)
Theorem session_cookies_are_http_only
    (E : Env) (req : NextRequest) (w : world E) (resp : NextResponse)
    (set_cookie : string) :
  response (session.POST E req) w = inr resp \/
  response (session.DELETE E) w = inr resp ->
  header (headers resp) "Set-Cookie" = Some set_cookie ->
  exists v1 v2 o1 o2,
    set_cookie = (serialize "accessToken" v1 o1 ++ ", "
                  ++ serialize "refreshToken" v2 o2)%string /\
    session_cookie o1 /\ session_cookie o2.
Proof.
  intros [Hr | Hr] Hh.
  - destruct (login_cookie_header E req w resp set_cookie Hr Hh)
      as (b & parsed & r & s1 & s2 & _ & _ & _ & _ & _ & _ & _ & ->).
    do 4 eexists. split; [reflexivity|]. repeat split.
  - run. injection Hr as <-. simpl in Hh. injection Hh as <-.
    do 4 eexists. split; [reflexivity|]. repeat split.
Qed.

(** ** Every request is answered *)

(** Neither handler lets an exception escape: whatever the request and
    whatever the database, bcrypt and jsonwebtoken do, the run ends with a
    response. *)
Lemma session_POST_responds (E : Env) (req : NextRequest) (w : world E) :
  exists resp, response (session.POST E req) w = inr resp.
Proof.
  destruct (login_path_of_run E req w) as (resp & Hr & _). eauto.
Qed.

Lemma camera_POST_responds (E : Env) (req : NextRequest) (w : world E) :
  exists resp, response (camera.POST E req) w = inr resp.
Proof.
  run. destruct (truthy _); simpl; [|eauto].
  destruct (jwt_verify E _ _) as [decoded|]; simpl; [|eauto].
  destruct (json req) as [b|]; simpl; [|eauto].
  destruct (camera.cameraSchema E b) as [parsed|iss]; simpl; [|eauto].
  destruct (pg_query E camera.ownership_sql _ (db w)) as [[e|[[|r rs]]] d];
    simpl; eauto.
  destruct (pg_query E camera.insert_sql _ d) as [[e|[[|r' rs']]] d'];
    simpl; eauto.
Qed.

(** The queries a handler sends are added to the log; nothing is removed
    from it. *)
Lemma camera_POST_log_grows (E : Env) (req : NextRequest) (w : world E) :
  exists sent, sql_log (after (camera.POST E req) w) = sql_log w ++ sent.
Proof.
  run. destruct (truthy _); simpl; [|exists []; now rewrite app_nil_r].
  destruct (jwt_verify E _ _) as [decoded|]; simpl;
    [|exists []; now rewrite app_nil_r].
  destruct (json req) as [b|]; simpl; [|exists []; now rewrite app_nil_r].
  destruct (camera.cameraSchema E b) as [parsed|iss]; simpl;
    [|exists []; now rewrite app_nil_r].
  destruct (pg_query E camera.ownership_sql _ (db w)) as [[e|[[|r rs]]] d];
    simpl; eauto.
  destruct (pg_query E camera.insert_sql _ d) as [[e|[[|r' rs']]] d'];
    simpl; rewrite <- app_assoc; eauto.
Qed.

(** ** The handlers at work on the small deployment *)

Lemma ada_authenticated (b : value) :
  authenticated demo.env (demo.add_camera (Some demo.ada_token) b) demo.ada_decoded.
Proof.
  exists demo.ada_token. split; [reflexivity|]. split; [discriminate|reflexivity].
Qed.

(** A request with the cookie [accessToken=] (empty value) is answered
    401, though its token does not verify: verification failure does not
    always give 500. *)
Lemma camera_empty_token_is_not_500 :
  ~ (forall (E : Env) (req : NextRequest) (w : world E) (tok : string),
       cookies req !! "accessToken" = Some tok ->
       jwt_verify E (VStr tok) (JWT_ACCESS_SECRET E) = None ->
       exists resp,
         response (camera.POST E req) w = inr resp /\ status resp = 500%Z).
Proof.
  intros H.
  destruct (H demo.env (demo.add_camera (Some "") (demo.camera_body "gate" (VStr "") 100))
              demo.world0 "" eq_refl eq_refl) as (resp & Hr & Hs).
  vm_compute in Hr. injection Hr as <-. discriminate Hs.
Qed.

(** A request without the cookie and with a body the camera schema
    refuses is answered 401: a refused body does not always give 400. *)
Lemma camera_bad_body_without_token_is_not_400 :
  ~ (forall (E : Env) (req : NextRequest) (w : world E) (body : value)
            (iss : list issue),
       json req = Some body ->
       camera.cameraSchema E body = Failure iss ->
       exists resp,
         response (camera.POST E req) w = inr resp /\ status resp = 400%Z).
Proof.
  intros H.
  destruct (H demo.env (demo.add_camera None (VObj [])) demo.world0 (VObj [])
              _ eq_refl eq_refl) as (resp & Hr & Hs).
  vm_compute in Hr. injection Hr as <-. discriminate Hs.
Qed.

(** Ada's password is right, but the access secret is unset: 500, not
    "Login successful". *)
Lemma login_without_secret_is_500 :
  ~ (forall (E : Env) (req : NextRequest) (w : world E) (body parsed : value)
            (r : list (string * value)),
       json req = Some body ->
       session.schema E body = Success parsed ->
       password_match E parsed w r ->
       exists resp,
         response (session.POST E req) w = inr resp /\
         body_text resp
         = JSON_stringify (VObj [("message", VStr "Login successful")])).
Proof.
  intros H.
  destruct (H demo.env_unset (demo.login "ada@example.com" "correct horse")
              demo.world_unset _ _ demo.ada eq_refl eq_refl)
    as (resp & Hr & Hb).
  - exists [], demo.tables0. split; reflexivity.
  - vm_compute in Hr. injection Hr as <-. discriminate Hb.
Qed.

(** A streamUrl with a space on either side is accepted, and the INSERT
    gets it without the spaces: a non-empty streamUrl is not always
    passed as it was sent. *)
Lemma camera_padded_stream_url_is_trimmed :
  ~ (forall (E : Env) (req : NextRequest) (w : world E)
            (decoded body parsed : value) (r : list (string * value))
            (rs : list (list (string * value))) (d : DB E) (s : string),
       authenticated E req decoded ->
       json req = Some body ->
       camera.cameraSchema E body = Success parsed ->
       ownership_answer E parsed decoded w = (inr {| rows := r :: rs |}, d) ->
       prop body "streamUrl" = VStr s -> s <> "" ->
       exists name location_id,
         In (camera.insert_sql, [name; VStr s; location_id])
            (sql_log (after (camera.POST E req) w))).
Proof.
  intros H.
  destruct (H demo.env (demo.ada_adds (VStr " http://cam/1 ") 100) demo.world0
              demo.ada_decoded
              (demo.camera_body "gate" (VStr " http://cam/1 ") 100)
              (demo.camera_body "gate" (VStr "http://cam/1") 100)
              [("id", num 100)] [] demo.tables0 " http://cam/1 "
              (ada_authenticated _) eq_refl eq_refl eq_refl eq_refl
              ltac:(discriminate))
    as (name & location_id & Hin).
  vm_compute in Hin. destruct Hin as [Hin | [Hin | []]]; discriminate Hin.
Qed.

(** Ada asks for a camera at Bob's location 200: 404. *)
Lemma camera_insert_only_for_owned_location_witness :
  response (camera.POST demo.env (demo.ada_adds (VStr "") 200)) demo.world0
  = inr (json_response 404 "Location not found or does not belong to user").
Proof.
  refine (proj1 (proj2 (camera_insert_only_for_owned_location demo.env
                   (demo.ada_adds (VStr "") 200) demo.world0 demo.ada_decoded
                   (demo.camera_body "gate" (VStr "") 200)
                   (demo.camera_body "gate" (VStr "") 200) _ _ _)
                 demo.tables0 _)).
  - apply ada_authenticated.
  - reflexivity.
  - reflexivity.
  - reflexivity.
Defined.

(** Ada registers a camera at her location 100 with an empty streamUrl:
    the INSERT gets NULL. *)
Lemma camera_stream_url_parameter_witness :
  exists stream_url,
    sql_log (after (camera.POST demo.env (demo.ada_adds (VStr "") 100)) demo.world0)
    = [(camera.ownership_sql, [num 100; num 1]);
       (camera.insert_sql, [VStr "gate"; stream_url; num 100])] /\
    stream_url = VNull.
Proof.
  destruct (camera_stream_url_parameter demo.env (demo.ada_adds (VStr "") 100)
              demo.world0 demo.ada_decoded
              (demo.camera_body "gate" (VStr "") 100)
              (demo.camera_body "gate" (VStr "") 100)
              [("id", num 100)] [] demo.tables0
              (ada_authenticated _) eq_refl eq_refl eq_refl)
    as (u & Hlog & Hnull & _).
  exists u. split; [exact Hlog|]. apply Hnull. right. reflexivity.
Defined.

(** No cookie: 401; a forged token: 500. *)
Lemma camera_token_guard_witness :
  camera.POST demo.env (demo.add_camera None (VObj [])) demo.world0
    = (inr (json_response 401 "Unauthorized"), demo.world0) /\
  response (camera.POST demo.env (demo.add_camera (Some "forged") (VObj [])))
    demo.world0
    = inr (json_response 500 "Error adding camera").
Proof.
  split.
  - apply (proj1 (camera_token_guard demo.env _ demo.world0)).
    left. reflexivity.
  - apply (proj2 (camera_token_guard demo.env
                    (demo.add_camera (Some "forged") (VObj [])) demo.world0)
             "forged"); [reflexivity | discriminate | reflexivity].
Defined.

(** An empty body: the login answers 400, and so does the camera route
    for Ada. *)
Lemma schema_failure_is_400_without_sql_witness :
  (exists resp,
     response (session.POST demo.env
                 {| cookies := ∅; json := Some (VObj []) |}) demo.world0
       = inr resp /\ status resp = 400%Z) /\
  (exists resp,
     response (camera.POST demo.env
                 (demo.add_camera (Some demo.ada_token) (VObj []))) demo.world0
       = inr resp /\ status resp = 400%Z).
Proof.
  split.
  - refine (proj1 (proj1 (schema_failure_is_400_without_sql demo.env
                            {| cookies := ∅; json := Some (VObj []) |}
                            demo.world0 (VObj []) eq_refl) _ _)).
    reflexivity.
  - refine (proj1 (proj2 (proj2 (schema_failure_is_400_without_sql demo.env
                            (demo.add_camera (Some demo.ada_token) (VObj []))
                            demo.world0 (VObj []) eq_refl) _ _))
              demo.ada_decoded (ada_authenticated _)).
    reflexivity.
Defined.

(** Ada's password, mistyped: 401. *)
Lemma login_credentials_witness :
  response (session.POST demo.env (demo.login "ada@example.com" "wrong horse"))
    demo.world0
  = inr (json_response 401 "Invalid credentials").
Proof.
  refine (proj1 (proj2 (login_credentials demo.env
                          (demo.login "ada@example.com" "wrong horse")
                          demo.world0 _ _ eq_refl eq_refl)) _).
  right. exists demo.ada, [], demo.tables0. split; reflexivity.
Defined.

(** An unknown address and a mistyped password are answered alike. *)
Lemma login_refusals_are_identical_witness :
  response (session.POST demo.env (demo.login "eve@example.com" "anything"))
    demo.world0
  = response (session.POST demo.env (demo.login "ada@example.com" "wrong horse"))
      demo.world0.
Proof.
  refine (proj1 (login_refusals_are_identical demo.env
                   (demo.login "eve@example.com" "anything")
                   (demo.login "ada@example.com" "wrong horse")
                   demo.world0 demo.world0 _ _ _ _
                   eq_refl eq_refl eq_refl eq_refl _ _)).
  - exists demo.tables0. reflexivity.
  - exists demo.ada, [], demo.tables0. split; reflexivity.
Defined.

Lemma ada_logs_in :
  password_match demo.env
    (VObj [("email", VStr "ada@example.com"); ("password", VStr "correct horse")])
    demo.world0 demo.ada.
Proof. exists [], demo.tables0. split; reflexivity. Qed.

(** Ada logs in: the two tokens and their cookies. *)
Lemma login_token_lifetimes_witness :
  exists payload s1 s2 so1 so2 o1 o2,
    JWT_ACCESS_SECRET demo.env = Some s1 /\
    JWT_REFRESH_SECRET demo.env = Some s2 /\
    Some "accessToken=jwt.1.15m.access-secret; Max-Age=900; Path=/; HttpOnly; Secure; SameSite=Strict, refreshToken=jwt.1.7d.refresh-secret; Max-Age=604800; Path=/; HttpOnly; Secure; SameSite=Strict"
      = Some (serialize "accessToken" (jwt_sign demo.env payload s1 so1) o1
              ++ ", " ++
              serialize "refreshToken" (jwt_sign demo.env payload s2 so2) o2)%string /\
    expiresIn so1 = "15m" /\ lifetime so1 = Some (15 * 60)%Z /\
    maxAge o1 = (15 * 60)%Z /\ (15 * 60 = 900)%Z /\
    expiresIn so2 = "7d" /\ lifetime so2 = Some (60 * 60 * 24 * 7)%Z /\
    maxAge o2 = (60 * 60 * 24 * 7)%Z /\ (60 * 60 * 24 * 7 = 604800)%Z.
Proof.
  exact (login_token_lifetimes demo.env
           (demo.login "ada@example.com" "correct horse") demo.world0
           _ eq_refl eq_refl).
Defined.

(** Ada logs in: both cookies of the answer are HTTP-only. *)
Lemma session_cookies_are_http_only_witness :
  exists v1 v2 o1 o2,
    "accessToken=jwt.1.15m.access-secret; Max-Age=900; Path=/; HttpOnly; Secure; SameSite=Strict, refreshToken=jwt.1.7d.refresh-secret; Max-Age=604800; Path=/; HttpOnly; Secure; SameSite=Strict"
    = (serialize "accessToken" v1 o1 ++ ", "
       ++ serialize "refreshToken" v2 o2)%string /\
    session_cookie o1 /\ session_cookie o2.
Proof.
  refine (session_cookies_are_http_only demo.env
            (demo.login "ada@example.com" "correct horse") demo.world0 _ _
            (or_introl eq_refl) _).
  reflexivity.
Defined.

(** * Further properties of the routes *)

(** ** What the schemas accept *)

(** X1.  The login schema accepts exactly the objects whose email is a
    string zod recognises as an e-mail address and whose password is a
    string of at least six characters (UTF-16 code units, as JavaScript
    counts them); what it returns is the object reduced to these two
    properties, and a refusal carries at least one issue. *)
Theorem login_schema_accepts (E : Env) (b : value) :
  if login_body_ok E b
  then session.schema E b
       = Success (VObj [("email", prop b "email");
                        ("password", prop b "password")])
  else exists i iss, session.schema E b = Failure (i :: iss).
Proof.
  pose proof (login_schema_cases E b) as H.
  destruct (login_body_ok E b); [exact H|].
  destruct H as (i & iss & H). exists i, iss. exact H.
Qed.

(** X2.  The camera schema accepts exactly the objects with a non-empty
    string name, a streamUrl that is absent, the empty string or a URL,
    and a locationId that is an integer greater than zero and at most
    2^53 - 1.  What it returns has the body's name and locationId, and
    for streamUrl the string the url check made of a URL, the empty
    string as it is, and no streamUrl key where the body has none; a
    refusal carries at least one issue. *)
Theorem camera_schema_accepts (E : Env) (b : value) :
  if camera_body_ok E b
  then camera.cameraSchema E b = Success (camera_parsed E b) /\
       prop (camera_parsed E b) "name" = prop b "name" /\
       prop (camera_parsed E b) "streamUrl"
       = stream_url_out E (prop b "streamUrl") /\
       prop (camera_parsed E b) "locationId" = prop b "locationId" /\
       (has_key b "streamUrl" = false ->
        has_key (camera_parsed E b) "streamUrl" = false)
  else exists i iss, camera.cameraSchema E b = Failure (i :: iss).
Proof.
  pose proof (camera_schema_cases E b) as H.
  destruct (camera_body_ok E b); [|exact H].
  split; [exact H|].
  destruct (camera_parsed_props E b) as (Hn & Hu & Hl).
  repeat split; try assumption.
  intros Hk. unfold camera_parsed.
  assert (Hp : prop b "streamUrl" = VUndefined).
  { unfold prop, has_key in *. destruct b; try reflexivity.
    destruct (assoc "streamUrl" fields); [|reflexivity].
    apply bool_decide_eq_false in Hk. destruct Hk. eauto. }
  rewrite Hp, Hk. reflexivity.
Qed.

(** ** More on the session route *)

(** X3.  A login is answered in one of four ways and no other: 200 with
    the message "Login successful", 400 with zod's message for the issues
    the schema found in the body, 401 "Invalid credentials", or 500
    "Internal server error".  In particular nothing of a database, bcrypt
    or signing error reaches the response. *)
Theorem login_answers (E : Env) (req : NextRequest) (w : world E) :
  exists resp,
    response (session.POST E req) w = inr resp /\
    ((status resp = 200%Z /\
      body_text resp
        = JSON_stringify (VObj [("message", VStr "Login successful")]))
     \/ (exists b i iss,
           json req = Some b /\
           session.schema E b = Failure (i :: iss) /\
           resp = json_response 400 (ZodError_message E (i :: iss)))
     \/ resp = json_response 401 "Invalid credentials"
     \/ resp = json_response 500 "Internal server error").
Proof.
  destruct (login_path_of_run E req w) as (resp & Hr & Hp).
  exists resp. split; [exact Hr|].
  destruct Hp;
    first [ left; split; reflexivity
          | right; left; solve [eauto 6]
          | right; right; left; reflexivity
          | right; right; right; reflexivity ].
Qed.

(** X4.  A login is answered 500 exactly when the body is not JSON, or
    the body is accepted by the schema and then the users query fails,
    or bcrypt rejects the comparison with the first row's hash, or the
    password matches but a JWT secret is unset or empty. *)
Theorem login_internal_error (E : Env) (req : NextRequest) (w : world E) :
  (exists resp,
     response (session.POST E req) w = inr resp /\ status resp = 500%Z)
  <->
  (json req = None \/
   exists b parsed,
     json req = Some b /\ session.schema E b = Success parsed /\
     (users_query_failed E parsed w \/ compare_rejected E parsed w \/
      exists r,
        password_match E parsed w r /\
        (usable (JWT_ACCESS_SECRET E) = false \/
         usable (JWT_REFRESH_SECRET E) = false))).
Proof.
  split.
  - intros (resp & Hr & H500).
    destruct (login_path_of_run E req w) as (resp' & Hr' & Hp).
    rewrite Hr in Hr'. injection Hr' as <-.
    destruct Hp; try discriminate H500; eauto 10.
  - intros [Hj | (b & parsed & Hj & Hs & Hbad)].
    + exists (json_response 500 "Internal server error").
      split; [|reflexivity]. run. now rewrite Hj.
    + exists (json_response 500 "Internal server error").
      split; [|reflexivity].
      destruct Hbad as [(e & d & Hq) | [(r & rs & d & Hq & Hb) | (r & Hm & Hu)]].
      * unfold users_answer in Hq. run. rewrite Hj, Hs. simpl. now rewrite Hq.
      * unfold users_answer in Hq. run. rewrite Hj, Hs. simpl. rewrite Hq.
        simpl. now rewrite Hb.
      * exact (login_unsigned E req w b parsed r Hj Hs Hm Hu).
Qed.

(** X5.  What a login does to the world: for a JSON body the schema
    accepts, exactly one query, the users SELECT with the body's email as
    its only parameter; for any other request, nothing.  The text of the
    query does not depend on the request, and the console is never
    written. *)
Theorem login_sends_one_select (E : Env) (req : NextRequest) (w : world E) :
  match json req with
  | Some b =>
      if login_body_ok E b then
        after (session.POST E req) w
        = {| db := snd (pg_query E session.users_sql [prop b "email"] (db w));
             sql_log := sql_log w ++ [(session.users_sql, [prop b "email"])];
             console := console w |}
      else after (session.POST E req) w = w
  | None => after (session.POST E req) w = w
  end.
Proof.
  destruct (json req) as [b|] eqn:Hj; [|run; now rewrite Hj].
  pose proof (login_schema_cases E b) as Hs.
  destruct (login_body_ok E b).
  - run. rewrite Hj, Hs. simpl.
    change (prop (VObj _) "email") with (prop b "email").
    destruct (pg_query E session.users_sql _ (db w)) as [[e|[[|r rs]]] d];
      simpl; try reflexivity.
    destruct (bcrypt_compare E _ _) as [[|]|]; simpl; try reflexivity.
    rewrite ?lifetime_15m, ?lifetime_7d.
    destruct (JWT_ACCESS_SECRET E) as [s1|]; [|reflexivity].
    destruct (String.eqb s1 ""); simpl; [reflexivity|].
    destruct (JWT_REFRESH_SECRET E) as [s2|]; [|reflexivity].
    destruct (String.eqb s2 ""); reflexivity.
  - destruct Hs as (i & iss & Hs). run. now rewrite Hj, Hs.
Qed.

(** X6.  A login response carries a Set-Cookie header only if the body
    was accepted by the schema, the users query returned a row and bcrypt
    confirmed the password against that row's hash: no token is issued on
    any other path. *)
Theorem login_cookie_only_after_match
    (E : Env) (req : NextRequest) (w : world E) (resp : NextResponse)
    (set_cookie : string) :
  response (session.POST E req) w = inr resp ->
  header (headers resp) "Set-Cookie" = Some set_cookie ->
  exists b parsed r,
    json req = Some b /\ session.schema E b = Success parsed /\
    password_match E parsed w r.
Proof.
  intros Hr Hh.
  destruct (login_cookie_header E req w resp set_cookie Hr Hh)
    as (b & parsed & r & s1 & s2 & Hj & Hs & Hm & _).
  exists b, parsed, r. auto.
Qed.

Lemma login_cookie_only_after_match_witness :
  exists b parsed r,
    json (demo.login "ada@example.com" "correct horse") = Some b /\
    session.schema demo.env b = Success parsed /\
    password_match demo.env parsed demo.world0 r.
Proof.
  refine (login_cookie_only_after_match demo.env
            (demo.login "ada@example.com" "correct horse") demo.world0
            _ _ eq_refl _).
  reflexivity.
Defined.




(** X8.  The logout undoes the login: whenever a login has set cookies,
    the two cookies the logout serializes have their names, path and
    flags, with the empty value and maxAge -1, so that they replace
    them. *)
Theorem logout_expires_login_cookies
    (E : Env) (req : NextRequest) (w w' : world E) (login : NextResponse)
    (set_cookie : string) :
  response (session.POST E req) w = inr login ->
  header (headers login) "Set-Cookie" = Some set_cookie ->
  exists logout v1 v2 o1 o2,
    response (session.DELETE E) w' = inr logout /\
    set_cookie = (serialize "accessToken" v1 o1 ++ ", "
                  ++ serialize "refreshToken" v2 o2)%string /\
    header (headers logout) "Set-Cookie"
    = Some (serialize "accessToken" "" (expired o1) ++ ", "
            ++ serialize "refreshToken" "" (expired o2))%string.
Proof.
  intros Hr Hh.
  destruct (login_cookie_header E req w login set_cookie Hr Hh)
    as (b & parsed & r & s1 & s2 & _ & _ & _ & _ & _ & _ & _ & ->).
  do 5 eexists. split; [reflexivity|]. split; reflexivity.
Qed.

Lemma logout_expires_login_cookies_witness :
  exists logout v1 v2 o1 o2,
    response (session.DELETE demo.env) demo.world0 = inr logout /\
    "accessToken=jwt.1.15m.access-secret; Max-Age=900; Path=/; HttpOnly; Secure; SameSite=Strict, refreshToken=jwt.1.7d.refresh-secret; Max-Age=604800; Path=/; HttpOnly; Secure; SameSite=Strict"
    = (serialize "accessToken" v1 o1 ++ ", "
       ++ serialize "refreshToken" v2 o2)%string /\
    header (headers logout) "Set-Cookie"
    = Some (serialize "accessToken" "" (expired o1) ++ ", "
            ++ serialize "refreshToken" "" (expired o2))%string.
Proof.
  exact (logout_expires_login_cookies demo.env
           (demo.login "ada@example.com" "correct horse")
           demo.world0 demo.world0 _ _ eq_refl eq_refl).
Defined.

(** ** More on the camera route *)

Section MoreCamera.
Variable E : Env.

(** A request that passes the cookie guard has a cookie with a non-empty
    value. *)
Lemma truthy_cookie (req : NextRequest) :
  truthy (cookie_value req "accessToken") = true ->
  exists tok,
    cookies req !! "accessToken" = Some tok /\ tok <> "" /\
    cookie_value req "accessToken" = VStr tok.
Proof.
  unfold cookie_value. destruct (cookies req !! "accessToken") as [tok|];
    simpl; [|discriminate].
  intros H. exists tok. split; [reflexivity|]. split; [|reflexivity].
  intros ->. discriminate.
Qed.

End MoreCamera.

(** X9.  A camera request is answered in one of five ways and no other:
    201 with a row as body, 400 with the message of the first issue of
    the body, 401 "Unauthorized", 404 "Location not found or does not
    belong to user", or 500 "Error adding camera" (whatever the error
    was). *)
Theorem camera_answers (E : Env) (req : NextRequest) (w : world E) :
  exists resp,
    response (camera.POST E req) w = inr resp /\
    ((exists row,
        resp = {| status := 201;
                  headers := [("content-type", "application/json")];
                  body_text := JSON_stringify (VObj row) |})
     \/ (exists b i iss,
           json req = Some b /\
           camera.cameraSchema E b = Failure (i :: iss) /\
           resp = json_response 400 (message i))
     \/ resp = json_response 401 "Unauthorized"
     \/ resp = json_response 404 "Location not found or does not belong to user"
     \/ resp = json_response 500 "Error adding camera").
Proof.
  run. destruct (truthy _); simpl; [|eauto 10].
  destruct (jwt_verify E _ _) as [decoded|]; simpl; [|eauto 10].
  destruct (json req) as [b|]; simpl; [|eauto 10].
  destruct (camera.cameraSchema E b) as [parsed|iss] eqn:Hs; simpl.
  - destruct (pg_query E camera.ownership_sql _ (db w)) as [[e|[[|r rs]]] d];
      simpl; eauto 10.
    destruct (pg_query E camera.insert_sql _ d) as [[e|[[|r' rs']]] d'];
      simpl; eauto 10.
  - destruct (cameraSchema_loud E b iss Hs) as (i & rest & ->). simpl.
    eexists. split; [reflexivity|]. right. left. exists b, i, rest. auto.
Qed.

(** X10.  A camera is created when the request is authenticated, the body
    is accepted, the ownership query returns a row and the INSERT returns
    one: the answer is then 201 with the first row the INSERT returned as
    body, two queries were sent, the INSERT with the name, streamUrl (or
    NULL) and locationId of the schema's output, and nothing is written
    to the console. *)
Theorem camera_created
    (E : Env) (req : NextRequest) (w : world E) (decoded b parsed : value)
    (r row : list (string * value)) (rs more : list (list (string * value)))
    (d d' : DB E) :
  authenticated E req decoded ->
  json req = Some b ->
  camera.cameraSchema E b = Success parsed ->
  ownership_answer E parsed decoded w = (inr {| rows := r :: rs |}, d) ->
  pg_query E camera.insert_sql
    [prop parsed "name"; js_or (prop parsed "streamUrl") VNull;
     prop parsed "locationId"] d
  = (inr {| rows := row :: more |}, d') ->
  camera.POST E req w
  = (inr {| status := 201;
            headers := [("content-type", "application/json")];
            body_text := JSON_stringify (VObj row) |},
     {| db := d';
        sql_log := sql_log w ++
          [(camera.ownership_sql,
            [prop parsed "locationId"; prop decoded "userId"]);
           (camera.insert_sql,
            [prop parsed "name"; js_or (prop parsed "streamUrl") VNull;
             prop parsed "locationId"])];
        console := console w |}).
Proof.
  intros Ha Hj Hs Hq Hi. apply camera_guard in Ha as [Ht Hv].
  unfold ownership_answer in Hq.
  run. rewrite Ht, Hv, Hj, Hs. simpl. rewrite Hq. simpl.
  rewrite Hi. simpl. now rewrite <- app_assoc.
Qed.

Lemma camera_created_witness :
  response (camera.POST demo.env (demo.ada_adds (VStr " http://cam/1 ") 100))
    demo.world0
  = inr {| status := 201;
           headers := [("content-type", "application/json")];
           body_text := JSON_stringify
             (VObj [("id", num 1); ("name", VStr "gate");
                    ("stream_url", VStr "http://cam/1");
                    ("location_id", num 100)]) |}.
Proof.
  refine (f_equal fst
            (camera_created demo.env
               (demo.ada_adds (VStr " http://cam/1 ") 100)
               demo.world0 demo.ada_decoded
               (demo.camera_body "gate" (VStr " http://cam/1 ") 100)
               (demo.camera_body "gate" (VStr "http://cam/1") 100)
               [("id", num 100)] _ [] [] demo.tables0 _
               (ada_authenticated _) eq_refl eq_refl eq_refl eq_refl)).
Defined.

(** X11.  The camera route writes to the console exactly when it answers
    500: one entry, labelled "Error adding camera:", with the error that
    was caught, which is never a ZodError. *)
Theorem camera_logs_errors (E : Env) (req : NextRequest) (w : world E) :
  exists resp,
    response (camera.POST E req) w = inr resp /\
    ((status resp = 500%Z /\
      exists what,
        console (after (camera.POST E req) w)
        = console w ++ [("Error adding camera:", Error what)])
     \/ (status resp <> 500%Z /\
         console (after (camera.POST E req) w) = console w)).
Proof.
  run. destruct (truthy _); simpl; [|eexists; split; [reflexivity|right; easy]].
  destruct (jwt_verify E _ _) as [decoded|]; simpl; [|eauto 10].
  destruct (json req) as [b|]; simpl; [|eauto 10].
  destruct (camera.cameraSchema E b) as [parsed|iss] eqn:Hs; simpl;
    [|eexists; split; [reflexivity|right; easy]].
  destruct (pg_query E camera.ownership_sql _ (db w)) as [[e|[[|r rs]]] d];
    simpl; [eauto 10 | eexists; split; [reflexivity|right; easy] |].
  destruct (pg_query E camera.insert_sql _ d) as [[e|[[|r' rs']]] d'];
    simpl; [eauto 10 | eauto 10 | eexists; split; [reflexivity|right; easy]].
Qed.

(** X12.  The camera route sends a query only for a request whose
    accessToken cookie is non-empty and verifies and whose body the schema
    accepts: without these the database is not reached. *)
Theorem camera_queries_need_auth
    (E : Env) (req : NextRequest) (w : world E) :
  sql_log (after (camera.POST E req) w) <> sql_log w ->
  exists decoded b parsed,
    authenticated E req decoded /\ json req = Some b /\
    camera.cameraSchema E b = Success parsed.
Proof.
  unfold authenticated. run.
  destruct (truthy _) eqn:Ht; simpl; [|congruence].
  apply truthy_cookie in Ht as (tok & Hc & Hne & ->).
  destruct (jwt_verify E _ _) as [decoded|] eqn:Hv; simpl; [|congruence].
  destruct (json req) as [b|]; simpl; [|congruence].
  destruct (camera.cameraSchema E b) as [parsed|iss] eqn:Hs; simpl;
    [|congruence].
  intros _. exists decoded, b, parsed. split; [eauto|].
  split; [reflexivity|exact Hs].
Qed.

Lemma camera_queries_need_auth_witness :
  exists decoded b parsed,
    authenticated demo.env (demo.ada_adds (VStr "") 100) decoded /\
    json (demo.ada_adds (VStr "") 100) = Some b /\
    camera.cameraSchema demo.env b = Success parsed.
Proof.
  apply (camera_queries_need_auth demo.env (demo.ada_adds (VStr "") 100)
           demo.world0).
  vm_compute. discriminate.
Defined.

(** X13.  The queries of a camera request are, in this order, at most the
    ownership SELECT and then the INSERT, each at most once; their texts
    are the two constants of the route, whatever the request. *)
Theorem camera_query_sequence (E : Env) (req : NextRequest) (w : world E) :
  exists sent,
    sql_log (after (camera.POST E req) w) = sql_log w ++ sent /\
    (map fst sent = [] \/
     map fst sent = [camera.ownership_sql] \/
     map fst sent = [camera.ownership_sql; camera.insert_sql]).
Proof.
  run. destruct (truthy _); simpl;
    [|exists []; rewrite app_nil_r; auto].
  destruct (jwt_verify E _ _) as [decoded|]; simpl;
    [|exists []; rewrite app_nil_r; auto].
  destruct (json req) as [b|]; simpl; [|exists []; rewrite app_nil_r; auto].
  destruct (camera.cameraSchema E b) as [parsed|iss]; simpl;
    [|exists []; rewrite app_nil_r; auto].
  destruct (pg_query E camera.ownership_sql _ (db w)) as [[e|[[|r rs]]] d];
    simpl; try (eexists [_]; split; [reflexivity|auto]).
  destruct (pg_query E camera.insert_sql _ d) as [[e|[[|r' rs']]] d'];
    simpl; rewrite <- app_assoc; (eexists [_; _]; split; [reflexivity|auto]).
Qed.

(** X14.  Only name, streamUrl and locationId of the body matter: two
    requests with the same cookies whose bodies are objects that agree on
    these three properties are treated alike.  In particular a userId in
    the body does not change whom the request acts for. *)
Theorem camera_ignores_other_keys
    (E : Env) (req1 req2 : NextRequest) (w : world E)
    (fields1 fields2 : list (string * value)) :
  cookies req1 = cookies req2 ->
  json req1 = Some (VObj fields1) ->
  json req2 = Some (VObj fields2) ->
  prop (VObj fields1) "name" = prop (VObj fields2) "name" ->
  prop (VObj fields1) "streamUrl" = prop (VObj fields2) "streamUrl" ->
  prop (VObj fields1) "locationId" = prop (VObj fields2) "locationId" ->
  camera.POST E req1 w = camera.POST E req2 w.
Proof.
  intros Hc Hj1 Hj2 Hn Hu Hl.
  assert (Hiss : fst (object_fields
                        [("name", z_string E
                            [z_min E 1 (Some "Camera name is required")]);
                         ("streamUrl",
                          z_or E (z_optional (z_string E
                                    [z_url E (Some "Invalid URL format")]))
                                 (z_literal E ""));
                         ("locationId",
                          z_number E
                            [z_int E;
                             z_positive E
                               (Some "Location ID must be a positive integer")])]
                        (VObj fields1))
                 = fst (object_fields
                        [("name", z_string E
                            [z_min E 1 (Some "Camera name is required")]);
                         ("streamUrl",
                          z_or E (z_optional (z_string E
                                    [z_url E (Some "Invalid URL format")]))
                                 (z_literal E ""));
                         ("locationId",
                          z_number E
                            [z_int E;
                             z_positive E
                               (Some "Location ID must be a positive integer")])]
                        (VObj fields2))).
  { rewrite !object_fields_issues. cbn [map fst snd]. now rewrite Hn, Hu, Hl. }
  assert (Hcases : (exists iss,
                      camera.cameraSchema E (VObj fields1) = Failure iss /\
                      camera.cameraSchema E (VObj fields2) = Failure iss) \/
                   (exists p1 p2,
                      camera.cameraSchema E (VObj fields1) = Success p1 /\
                      camera.cameraSchema E (VObj fields2) = Success p2 /\
                      prop p1 "name" = prop p2 "name" /\
                      prop p1 "streamUrl" = prop p2 "streamUrl" /\
                      prop p1 "locationId" = prop p2 "locationId")).
  { destruct (camera.cameraSchema E (VObj fields1)) as [p1|i1] eqn:H1;
    destruct (camera.cameraSchema E (VObj fields2)) as [p2|i2] eqn:H2.
    - right. exists p1, p2.
      apply cameraSchema_ok in H1 as [_ ->]. apply cameraSchema_ok in H2 as [_ ->].
      destruct (camera_parsed_props E (VObj fields1)) as (-> & -> & ->).
      destruct (camera_parsed_props E (VObj fields2)) as (-> & -> & ->).
      rewrite Hn, Hu, Hl. auto.
    - exfalso. unfold camera.cameraSchema in H1, H2.
      rewrite z_object_fields in H1, H2. rewrite Hiss in H1.
      destruct (fst (object_fields _ (VObj fields2))); discriminate.
    - exfalso. unfold camera.cameraSchema in H1, H2.
      rewrite z_object_fields in H1, H2. rewrite Hiss in H1.
      destruct (fst (object_fields _ (VObj fields2))); discriminate.
    - left. exists i1. split; [reflexivity|].
      unfold camera.cameraSchema in H1, H2.
      rewrite z_object_fields in H1, H2. rewrite Hiss in H1.
      destruct (fst (object_fields _ (VObj fields2))); congruence. }
  run. unfold cookie_value. rewrite Hc, Hj1, Hj2.
  destruct Hcases as [(iss & -> & ->) | (p1 & p2 & -> & -> & H1 & H2 & H3)].
  - reflexivity.
  - destruct (truthy _); [|reflexivity].
    destruct (jwt_verify E _ _); simpl; [|reflexivity].
    now rewrite H1, H2, H3.
Qed.

Lemma camera_ignores_other_keys_witness :
  camera.POST demo.env
    (demo.add_camera (Some demo.ada_token)
       (VObj [("userId", num 2); ("name", VStr "gate");
              ("locationId", num 200)]))
    demo.world0
  = camera.POST demo.env
      (demo.add_camera (Some demo.ada_token)
         (VObj [("name", VStr "gate"); ("locationId", num 200)]))
      demo.world0.
Proof.
  apply (camera_ignores_other_keys demo.env _ _ demo.world0
           [("userId", num 2); ("name", VStr "gate"); ("locationId", num 200)]
           [("name", VStr "gate"); ("locationId", num 200)]);
    reflexivity.
Defined.

(** An authenticated request with a refused body is answered 400 with the
    message of the first issue. *)
Lemma camera_refused_body
    (E : Env) (req : NextRequest) (w : world E) (decoded b : value)
    (i : issue) (iss : list issue) :
  authenticated E req decoded ->
  json req = Some b ->
  camera.cameraSchema E b = Failure (i :: iss) ->
  response (camera.POST E req) w = inr (json_response 400 (message i)).
Proof.
  intros Ha Hj Hs. apply camera_guard in Ha as [Ht Hv].
  run. rewrite Ht, Hv, Hj, Hs. reflexivity.
Qed.

Lemma location_below_range (E : Env) (msg : option string) (z : Z) :
  (z < - MAX_SAFE_INTEGER)%Z ->
  exists iss,
    z_number E [z_int E; z_positive E msg] (num z)
    = Failure (issue_of E "too_small" "int" (Some (- MAX_SAFE_INTEGER)%Z)
                 (num z) None true :: iss).
Proof.
  intros Hz. unfold z_number, with_checks, num. cbn.
  rewrite Z.mod_1_r, Z.div_1_r. cbn.
  destruct (Z.ltb_spec MAX_SAFE_INTEGER z);
    [unfold MAX_SAFE_INTEGER in *; lia|].
  destruct (Z.ltb_spec z (- MAX_SAFE_INTEGER)); [|lia]. cbn.
  destruct (0 <? z)%Z; cbn; eauto.
Qed.

(** The camera schema on an object, from what its three keys give. *)
Lemma cameraSchema_issues (E : Env) (fields : list (string * value)) :
  camera.cameraSchema E (VObj fields)
  = match
      match z_string E [z_min E 1 (Some "Camera name is required")]
              (prop (VObj fields) "name") with
      | Failure i => prefix_issues "name" i
      | Success _ => []
      end ++
      match z_or E (z_optional (z_string E
                                  [z_url E (Some "Invalid URL format")]))
              (z_literal E "") (prop (VObj fields) "streamUrl") with
      | Failure i => prefix_issues "streamUrl" i
      | Success _ => []
      end ++
      match z_number E
              [z_int E;
               z_positive E (Some "Location ID must be a positive integer")]
              (prop (VObj fields) "locationId") with
      | Failure i => prefix_issues "locationId" i
      | Success _ => []
      end ++ []
    with
    | [] => camera.cameraSchema E (VObj fields)
    | iss => Failure iss
    end.
Proof.
  unfold camera.cameraSchema at 1. rewrite z_object_fields, object_fields_issues.
  cbn [map concat fst snd].
  match goal with |- match ?l with _ => _ end = _ => destruct l eqn:Hl end;
    [|reflexivity].
  unfold camera.cameraSchema. rewrite z_object_fields, object_fields_issues.
  cbn [map concat fst snd]. now rewrite Hl.
Qed.

(** X15.  The wording of refusals by name and locationId.  For an
    authenticated request whose body is an object: an empty name is
    answered 400 "Camera name is required", whatever the other properties
    are; with a good name and streamUrl, a locationId that is zero or a
    negative integer not below -(2^53 - 1) is answered 400 "Location ID
    must be a positive integer", and an integer below that range is
    answered 400 with zod's wording for an integer out of the safe
    range. *)
Theorem camera_refusal_wording
    (E : Env) (req : NextRequest) (w : world E) (decoded b : value) :
  authenticated E req decoded ->
  json req = Some b ->
  is_object b = true ->
  (prop b "name" = VStr "" ->
   response (camera.POST E req) w
   = inr (json_response 400 "Camera name is required"))
  /\
  (forall z,
     string_of_min 1 (prop b "name") = true ->
     stream_url_ok E (prop b "streamUrl") = true ->
     prop b "locationId" = num z ->
     ((- MAX_SAFE_INTEGER <= z <= 0)%Z ->
      response (camera.POST E req) w
      = inr (json_response 400 "Location ID must be a positive integer")) /\
     ((z < - MAX_SAFE_INTEGER)%Z ->
      response (camera.POST E req) w
      = inr (json_response 400
               (zod_default_message E "too_small" "int"
                  (Some (- MAX_SAFE_INTEGER)%Z) (num z))))).
Proof.
  intros Ha Hj Hobj. destruct b; try discriminate. split.
  - intros Hn.
    assert (exists iss, camera.cameraSchema E (VObj fields)
              = Failure (Issue "too_small" ["name"] "Camera name is required"
                           true :: iss)) as [iss Hs].
    { rewrite cameraSchema_issues, Hn, short_string by (cbn; lia).
      cbn. eauto. }
    apply (camera_refused_body E req w decoded _ _ _ Ha Hj Hs).
  - intros z Hn Hu Hl.
    destruct (name_field E 1 (Some "Camera name is required")
                (prop (VObj fields) "name")) as [[_ Hns] | [Hx _]];
      [|congruence].
    destruct (stream_url_field E (prop (VObj fields) "streamUrl"))
      as [[_ Hus] | [Hx _]]; [|congruence].
    split; intros Hz.
    + assert (camera.cameraSchema E (VObj fields)
              = Failure [Issue "too_small" ["locationId"]
                           "Location ID must be a positive integer" true])
        as Hs.
      { rewrite cameraSchema_issues, Hns, Hus, Hl, location_not_positive
          by assumption. reflexivity. }
      apply (camera_refused_body E req w decoded _ _ _ Ha Hj Hs).
    + destruct (location_below_range E
                  (Some "Location ID must be a positive integer") z Hz)
        as [iss Hls].
      assert (exists rest, camera.cameraSchema E (VObj fields)
              = Failure (Issue "too_small" ["locationId"]
                           (zod_default_message E "too_small" "int"
                              (Some (- MAX_SAFE_INTEGER)%Z) (num z)) true
                         :: rest)) as [rest Hs].
      { rewrite cameraSchema_issues, Hns, Hus, Hl, Hls. cbn. eauto. }
      apply (camera_refused_body E req w decoded _ _ _ Ha Hj Hs).
Qed.

Lemma camera_refusal_wording_witness :
  response (camera.POST demo.env
              (demo.add_camera (Some demo.ada_token)
                 (demo.camera_body "" (VStr "nowhere") 0))) demo.world0
    = inr (json_response 400 "Camera name is required") /\
  response (camera.POST demo.env
              (demo.add_camera (Some demo.ada_token)
                 (demo.camera_body "gate" (VStr "") 0))) demo.world0
    = inr (json_response 400 "Location ID must be a positive integer").
Proof.
  split.
  - apply (proj1 (camera_refusal_wording demo.env _ demo.world0
                    demo.ada_decoded (demo.camera_body "" (VStr "nowhere") 0)
                    (ada_authenticated _) eq_refl eq_refl)).
    reflexivity.
  - apply (proj1 (proj2 (camera_refusal_wording demo.env _ demo.world0
                    demo.ada_decoded (demo.camera_body "gate" (VStr "") 0)
                    (ada_authenticated _) eq_refl eq_refl) 0%Z
                    eq_refl eq_refl eq_refl)).
    vm_compute. split; discriminate.
Defined.

(** X16.  The wording of a refused streamUrl, the name being good, for
    an authenticated request whose body is an object.  A non-empty string
    that is not a URL is answered 400 "Invalid URL format", the message
    given to [.url()]: the literal alternative of the union aborts, so
    the issues of the string alternative are reported.  A streamUrl that
    is present and not a string is answered 400 with zod's wording for a
    failed union. *)
Theorem camera_bad_url_wording
    (E : Env) (req : NextRequest) (w : world E) (decoded b : value) :
  authenticated E req decoded ->
  json req = Some b ->
  is_object b = true ->
  string_of_min 1 (prop b "name") = true ->
  (forall s,
     prop b "streamUrl" = VStr s -> s <> "" -> zod_url E s = None ->
     response (camera.POST E req) w
     = inr (json_response 400 "Invalid URL format"))
  /\
  (stream_url_ok E (prop b "streamUrl") = false ->
   (forall s, prop b "streamUrl" <> VStr s) ->
   response (camera.POST E req) w
   = inr (json_response 400
            (zod_default_message E "invalid_union" "" None
               (prop b "streamUrl")))).
Proof.
  intros Ha Hj Hobj Hn. destruct b; try discriminate.
  destruct (name_field E 1 (Some "Camera name is required")
              (prop (VObj fields) "name")) as [[_ Hns] | [Hx _]];
    [|congruence].
  split.
  - intros s Hu Hne Hnone.
    destruct (stream_url_field E (prop (VObj fields) "streamUrl"))
      as [[Hok _] | [_ Hus]].
    { rewrite Hu in Hok. cbn in Hok. rewrite Hnone in Hok.
      apply String.eqb_neq in Hne. rewrite Hne in Hok. discriminate. }
    assert (exists rest, camera.cameraSchema E (VObj fields)
            = Failure (Issue "invalid_format" ["streamUrl"]
                         "Invalid URL format" true :: rest)) as [rest Hs].
    { rewrite cameraSchema_issues, Hns, Hus, Hu. cbn. eauto. }
    apply (camera_refused_body E req w decoded _ _ _ Ha Hj Hs).
  - intros Hbad Hnot.
    destruct (stream_url_field E (prop (VObj fields) "streamUrl"))
      as [[Hok _] | [_ Hus]]; [congruence|].
    assert (exists rest, camera.cameraSchema E (VObj fields)
            = Failure (Issue "invalid_union" ["streamUrl"]
                         (zod_default_message E "invalid_union" "" None
                            (prop (VObj fields) "streamUrl")) false
                       :: rest)) as [rest Hs].
    { rewrite cameraSchema_issues, Hns, Hus.
      destruct (prop (VObj fields) "streamUrl") eqn:Eu; cbn; eauto.
      destruct (Hnot s eq_refl). }
    apply (camera_refused_body E req w decoded _ _ _ Ha Hj Hs).
Qed.

Lemma camera_bad_url_wording_witness :
  response (camera.POST demo.env (demo.ada_adds (VStr "not a url") 100))
    demo.world0
  = inr (json_response 400 "Invalid URL format").
Proof.
  apply (proj1 (camera_bad_url_wording demo.env _ demo.world0 demo.ada_decoded
                  (demo.camera_body "gate" (VStr "not a url") 100)
                  (ada_authenticated _) eq_refl eq_refl eq_refl)
           "not a url"); [reflexivity | discriminate | reflexivity].
Defined.

Lemma stream_url_parameter (E : Env) (v : value) :
  stream_url_ok E v = true ->
  js_or (stream_url_out E v) VNull = VNull \/
  exists s raw,
    js_or (stream_url_out E v) VNull = VStr s /\ s <> "" /\
    zod_url E raw = Some s.
Proof.
  unfold stream_url_ok, stream_url_out, js_or.
  destruct v; try discriminate; simpl; auto.
  destruct (zod_url E s) as [out|] eqn:Hout; simpl.
  - intros _. destruct (String.eqb_spec out ""); simpl; [auto|].
    right. exists out, s. auto.
  - intros Hs. destruct (String.eqb_spec s ""); [|discriminate]. simpl. auto.
Qed.

(** X17.  What reaches the cameras table.  Every INSERT the route sends
    has three parameters: a name that is a non-empty string, a stream_url
    that is NULL or a non-empty string the url check returned, and a
    location_id that is an integer greater than zero and at most
    2^53 - 1. *)
Theorem camera_insert_parameters
    (E : Env) (req : NextRequest) (w : world E)
    (sent : list (string * list value)) (params : list value) :
  sql_log (after (camera.POST E req) w) = sql_log w ++ sent ->
  (camera.insert_sql, params) ∈ sent ->
  exists name stream_url location_id,
    params = [name; stream_url; location_id] /\
    string_of_min 1 name = true /\
    (stream_url = VNull \/
     exists s raw, stream_url = VStr s /\ s <> "" /\ zod_url E raw = Some s) /\
    location_ok location_id = true.
Proof.
  assert (Hnone : forall l : list (string * list value),
            sql_log w = sql_log w ++ l -> (camera.insert_sql, params) ∈ l ->
            False).
  { intros l Hl Hin. rewrite <- (app_nil_r (sql_log w)) in Hl at 1.
    apply app_inv_head in Hl. subst l. inversion Hin. }
  assert (Hone : forall (l : list (string * list value)) q,
            sql_log w ++ [(camera.ownership_sql, q)] = sql_log w ++ l ->
            (camera.insert_sql, params) ∈ l -> False).
  { intros l q Hl Hin. apply app_inv_head in Hl. subst l.
    apply list_elem_of_singleton in Hin.
    destruct (sql_texts_differ (f_equal fst Hin)). }
  run. destruct (truthy _); simpl; [|intros; exfalso; eauto].
  destruct (jwt_verify E _ _) as [decoded|]; simpl; [|intros; exfalso; eauto].
  destruct (json req) as [b|]; simpl; [|intros; exfalso; eauto].
  destruct (camera.cameraSchema E b) as [parsed|iss] eqn:Hs; simpl;
    [|intros; exfalso; eauto].
  destruct (cameraSchema_ok E b parsed Hs) as [Hok ->].
  destruct (camera_parsed_props E b) as (Hn & Hu & Hl).
  unfold camera_body_ok in Hok.
  apply andb_prop in Hok as [Hok Hlok]. apply andb_prop in Hok as [Hok Huok].
  apply andb_prop in Hok as [_ Hnok].
  destruct (pg_query E camera.ownership_sql _ (db w)) as [[e|[[|r rs]]] d];
    simpl; try solve [intros; exfalso; eauto].
  assert (Hgoal : forall l : list (string * list value),
            (sql_log w ++ [(camera.ownership_sql,
                            [prop (camera_parsed E b) "locationId";
                             prop decoded "userId"])])
            ++ [(camera.insert_sql,
                 [prop (camera_parsed E b) "name";
                  js_or (prop (camera_parsed E b) "streamUrl") VNull;
                  prop (camera_parsed E b) "locationId"])]
            = sql_log w ++ l ->
            (camera.insert_sql, params) ∈ l ->
            exists name stream_url location_id,
              params = [name; stream_url; location_id] /\
              string_of_min 1 name = true /\
              (stream_url = VNull \/
               exists s raw, stream_url = VStr s /\ s <> "" /\
                             zod_url E raw = Some s) /\
              location_ok location_id = true).
  { intros l Hlg Hin. rewrite <- app_assoc in Hlg. apply app_inv_head in Hlg.
    subst l. rewrite Hn, Hu, Hl in Hin.
    apply elem_of_cons in Hin as [Hin | Hin].
    - destruct (sql_texts_differ (f_equal fst Hin)).
    - apply list_elem_of_singleton in Hin. injection Hin as ->.
      do 3 eexists. split; [reflexivity|]. split; [exact Hnok|].
      split; [|exact Hlok]. exact (stream_url_parameter E _ Huok). }
  destruct (pg_query E camera.insert_sql _ d) as [[e|[[|r' rs']]] d'];
    simpl; exact (Hgoal sent).
Qed.

Lemma camera_insert_parameters_witness :
  exists name stream_url location_id,
    [VStr "gate"; VStr "http://cam/1"; num 100]
    = [name; stream_url; location_id] /\
    string_of_min 1 name = true /\
    (stream_url = VNull \/
     exists s raw, stream_url = VStr s /\ s <> "" /\
                   zod_url demo.env raw = Some s) /\
    location_ok location_id = true.
Proof.
  apply (camera_insert_parameters demo.env
           (demo.ada_adds (VStr " http://cam/1 ") 100) demo.world0
           [(camera.ownership_sql, [num 100; num 1]);
            (camera.insert_sql, [VStr "gate"; VStr "http://cam/1"; num 100])]).
  - reflexivity.
  - apply elem_of_cons. right. apply list_elem_of_singleton. reflexivity.
Defined.

(** ** From the login to the camera route *)

(** X18.  The token of a login opens the camera route for the user who
    logged in.  With both JWT secrets set and not empty, where
    jsonwebtoken verifies the access token it signed and the payload it
    decodes has the userId that was signed, a camera request that carries
    the accessToken a login has set is checked for ownership against the
    id of the user row that login matched. *)
Theorem login_token_opens_camera
    (E : Env) (req1 req2 : NextRequest) (w1 w2 : world E)
    (b1 parsed1 b2 parsed2 decoded : value) (r : list (string * value))
    (s1 s2 : string) :
  json req1 = Some b1 ->
  session.schema E b1 = Success parsed1 ->
  password_match E parsed1 w1 r ->
  JWT_ACCESS_SECRET E = Some s1 -> s1 <> "" ->
  JWT_REFRESH_SECRET E = Some s2 -> s2 <> "" ->
  let token := jwt_sign E (token_payload r) s1 {| expiresIn := "15m" |} in
  token <> "" ->
  jwt_verify E (VStr token) (Some s1) = Some decoded ->
  prop decoded "userId" = prop (VObj r) "id" ->
  cookies req2 !! "accessToken" = Some token ->
  json req2 = Some b2 ->
  camera.cameraSchema E b2 = Success parsed2 ->
  (exists resp o1 rest,
     response (session.POST E req1) w1 = inr resp /\
     header (headers resp) "Set-Cookie"
     = Some (serialize "accessToken" token o1 ++ rest)%string)
  /\
  (exists more,
     sql_log (after (camera.POST E req2) w2)
     = sql_log w2 ++
       (camera.ownership_sql, [prop b2 "locationId"; prop (VObj r) "id"])
       :: more).
Proof.
  intros Hj1 Hs1 Hm H1 Hn1 H2 Hn2 token Hne Hv Hid Hc Hj2 Hs2. split.
  - rewrite (login_accepted E req1 w1 b1 parsed1 r s1 s2
               Hj1 Hs1 Hm H1 Hn1 H2 Hn2).
    do 3 eexists. split; reflexivity.
  - assert (Ha : authenticated E req2 decoded).
    { exists token. rewrite H1. auto. }
    apply camera_guard in Ha as [Ht Hv'].
    destruct (cameraSchema_ok E b2 parsed2 Hs2) as [_ ->].
    destruct (camera_parsed_props E b2) as (_ & _ & Hl).
    run. rewrite Ht, Hv', Hj2, Hs2. simpl. rewrite Hl, Hid.
    destruct (pg_query E camera.ownership_sql _ (db w2)) as [[e|[[|r0 rs]]] d];
      simpl; eauto.
    destruct (pg_query E camera.insert_sql _ d) as [[e|[[|r' rs']]] d'];
      simpl; rewrite <- app_assoc; simpl; eauto.
Qed.

Lemma login_token_opens_camera_witness :
  exists more,
    sql_log (after (camera.POST demo.env (demo.ada_adds (VStr "") 100))
               demo.world0)
    = (camera.ownership_sql, [num 100; num 1]) :: more.
Proof.
  exact (proj2 (login_token_opens_camera demo.env
                  (demo.login "ada@example.com" "correct horse")
                  (demo.ada_adds (VStr "") 100) demo.world0 demo.world0
                  _ _ (demo.camera_body "gate" (VStr "") 100)
                  (demo.camera_body "gate" (VStr "") 100)
                  demo.ada_decoded demo.ada "access-secret" "refresh-secret"
                  eq_refl eq_refl ada_logs_in
                  eq_refl ltac:(discriminate) eq_refl ltac:(discriminate)
                  ltac:(discriminate) eq_refl eq_refl eq_refl eq_refl
                  eq_refl)).
Defined.
